(** * TwitchTicker: chat messages to ticker headlines

    A shallow embedding of [src/TwitchTicker.py] and the properties its
    specification states about it.

    Python strings are sequences of Unicode code points, so a string is a
    list of code points here.  The whitespace set used by [str.split],
    [str.strip] and the regular-expression classes [\s] and [\S] is finite and
    is written out.  The case tables of the Unicode database ([str.isupper],
    [str.upper], [str.lower]) and the case-insensitive substitution of the
    [re] module are not part of the repository: they are fields of a
    [runtime] record, and every general theorem holds for every runtime
    (a few under laws that the Unicode database satisfies, stated where
    they are used).  [ascii_runtime] is the instance used to evaluate the
    program on concrete ASCII inputs. *)

From Stdlib Require Import String Ascii.
From Stdlib Require Import List Bool Arith NArith ZArith QArith Lia.
From Stdlib Require Import DecimalString.
Import ListNotations.
Close Scope Q_scope.

Set Implicit Arguments.
Set Warnings "-register-all".

(** ** Strings *)

Definition char := N.
Definition str := list char.

(** An ASCII literal of the source, as code points. *)
Definition lit (s : string) : str :=
  List.map N_of_ascii (list_ascii_of_string s).

Definition SPACE : char := 32%N.
Definition NEWLINE : char := 10%N.
Definition DQUOTE : char := 34%N.
Definition SQUOTE : char := 39%N.
(** U+2014, the dash of the fallback templates, and U+2026, the ellipsis
    appended by [clean_message]. *)
Definition EM_DASH : char := 8212%N.
Definition ELLIPSIS : char := 8230%N.

(** The code points Python treats as whitespace ([Py_UNICODE_ISSPACE]). *)
Definition whitespace : list char :=
  [9; 10; 11; 12; 13; 28; 29; 30; 31; 32; 133; 160; 5760;
   8192; 8193; 8194; 8195; 8196; 8197; 8198; 8199; 8200; 8201; 8202;
   8232; 8233; 8239; 8287; 12288]%N.

Definition isspace (c : char) : bool := existsb (N.eqb c) whitespace.

Definition str_eqb (a b : str) : bool :=
  if list_eq_dec N.eq_dec a b then true else false.

(** [s.startswith(p)] *)
Fixpoint startswith (p s : str) : bool :=
  match p, s with
  | [], _ => true
  | _ :: _, [] => false
  | a :: p', b :: s' => N.eqb b a && startswith p' s'
  end.

(** [p in s] *)
Fixpoint contains (p s : str) : bool :=
  startswith p s ||
  match s with
  | [] => false
  | _ :: s' => contains p s'
  end.

(** [sep.join(ws)] *)
Fixpoint join (sep : str) (ws : list str) : str :=
  match ws with
  | [] => []
  | [w] => w
  | w :: rest => w ++ sep ++ join sep rest
  end.

(** Whether [s] begins inside a word. *)
Definition at_word (s : str) : bool :=
  match s with
  | [] => false
  | c :: _ => negb (isspace c)
  end.

(** [s.split()]: the maximal runs of non-whitespace, in order. *)
Fixpoint split (s : str) : list str :=
  match s with
  | [] => []
  | c :: r =>
      if isspace c then split r
      else if at_word r
           then match split r with
                | w :: ws => (c :: w) :: ws
                | [] => [[c]]
                end
           else [c] :: split r
  end.

Fixpoint dropwhile (f : char -> bool) (s : str) : str :=
  match s with
  | [] => []
  | c :: r => if f c then dropwhile f r else s
  end.

Fixpoint takewhile (f : char -> bool) (s : str) : str :=
  match s with
  | [] => []
  | c :: r => if f c then c :: takewhile f r else []
  end.

(** [s.strip(chars)] for a set of characters given as a predicate, and
    [s.strip()]. *)
Definition strip_with (f : char -> bool) (s : str) : str :=
  rev (dropwhile f (rev (dropwhile f s))).

Definition strip (s : str) : str := strip_with isspace s.

(** [s.split('\n')[0]] *)
Definition first_line (s : str) : str :=
  takewhile (fun c => negb (N.eqb c NEWLINE)) s.

(** [l[:n]] for a Python integer [n], negative included. *)
Definition slice_to {A} (n : Z) (l : list A) : list A :=
  if (0 <=? n)%Z then firstn (Z.to_nat n) l
  else firstn (length l - Z.to_nat (- n)) l.

(** ** Exceptions *)

Inductive exn :=
| ConnectionError
| Timeout
| HTTPError (status : Z)
| JSONDecodeError
| AttributeError
| ValueError
| ReError
| OtherException.

Inductive result (A : Type) :=
| Ok (a : A)
| Raise (e : exn).
Arguments Ok {A} a.
Arguments Raise {A} e.

Definition bind {A B} (m : result A) (k : A -> result B) : result B :=
  match m with
  | Ok a => k a
  | Raise e => Raise e
  end.

Notation "x <- m ;; k" := (bind m (fun x => k))
  (at level 61, m at next level, right associativity).

(** ** Regular expressions

    The fragment of [re] the program uses: literal characters,
    concatenation, a greedy optional item and a greedy repetition of a
    character class such as [\s] or [\S].  [rmatch r s k] matches [r] at
    the start of [s] with backtracking and passes the rest of the input to
    the continuation [k]; the first alternative tried is the greedy one, as
    in [re]. *)

Inductive regex :=
| Lit (c : char)
| Cat (r1 r2 : regex)
| Opt (r : regex)
| Plus (f : char -> bool).

Fixpoint rmatch (r : regex) (s : str) (k : str -> option str) : option str :=
  match r with
  | Lit c =>
      match s with
      | x :: s' => if N.eqb x c then k s' else None
      | [] => None
      end
  | Cat r1 r2 => rmatch r1 s (fun s1 => rmatch r2 s1 k)
  | Opt r1 =>
      match rmatch r1 s k with
      | Some rest => Some rest
      | None => k s
      end
  | Plus f =>
      (fix loop (s : str) : option str :=
         match s with
         | x :: s' =>
             if f x
             then match loop s' with
                  | Some rest => Some rest
                  | None => k s'
                  end
             else None
         | [] => None
         end) s
  end.

(** The length of the match of [r] at the start of [s], if there is one. *)
Definition match_len (r : regex) (s : str) : option nat :=
  match rmatch r s (fun rest => Some rest) with
  | Some rest => Some (length s - length rest)
  | None => None
  end.

(** [re.sub(r, repl, s)] for a replacement without escapes: scan from the
    left, replace each match and go on behind it; an empty match is
    replaced and the character behind it is kept.  [skip] counts the
    characters of the current match still to be passed over. *)
Fixpoint re_sub_from (r : regex) (repl : str) (skip : nat) (s : str) : str :=
  match s with
  | [] =>
      match match_len r [] with
      | Some _ => repl
      | None => []
      end
  | c :: s' =>
      match skip with
      | S n => re_sub_from r repl n s'
      | O =>
          match match_len r s with
          | Some (S n) => repl ++ re_sub_from r repl n s'
          | Some O => repl ++ c :: re_sub_from r repl 0 s'
          | None => c :: re_sub_from r repl 0 s'
          end
      end
  end.

Definition re_sub (r : regex) (repl : str) (s : str) : str :=
  re_sub_from r repl 0 s.

Fixpoint lits (s : str) : regex -> regex :=
  match s with
  | [] => fun r => r
  | c :: s' => fun r => Cat (Lit c) (lits s' r)
  end.

Definition nonspace (c : char) : bool := negb (isspace c).

(** [https?://\S+] *)
Definition URL_RE : regex :=
  lits (lit "http") (Cat (Opt (Lit 115%N)) (lits (lit "://") (Plus nonspace))).

(** [\s+] *)
Definition WS_RE : regex := Plus isspace.

(** ** Text cleaning *)

Definition clean_message (msg : str) : str :=
  match msg with
  | [] => []
  | _ =>
      let msg := re_sub URL_RE [] msg in
      let msg := strip (re_sub WS_RE [SPACE] msg) in
      if 300 <? length msg
      then firstn 300 msg ++ [ELLIPSIS]
      else msg
  end.

(** ** The language runtime

    What the program takes from Python and its libraries without defining
    it: the case properties and the upper-case mapping of a code point,
    [str.lower], and [re.sub(re.escape(pattern), repl, s, flags=re.IGNORECASE)],
    which can raise [re.error] on a replacement with a bad escape. *)

Record runtime := {
  ch_islower : char -> bool;
  ch_isupper : char -> bool;
  ch_istitle : char -> bool;
  ch_toupper : char -> str;
  str_lower : str -> str;
  re_sub_ignorecase : str -> str -> str -> result str
}.

(** Code points U+0041 to U+005A are the upper-case ASCII letters and
    U+0061 to U+007A the lower-case ones; this runtime treats every other
    code point as caseless, which is what the Unicode database says of the
    rest of ASCII, of U+2014 and of U+2026. *)
Definition ascii_isupper (c : char) : bool := (65 <=? c)%N && (c <=? 90)%N.
Definition ascii_islower (c : char) : bool := (97 <=? c)%N && (c <=? 122)%N.
Definition ascii_toupper (c : char) : str :=
  if ascii_islower c then [(c - 32)%N] else [c].
Definition ascii_tolower (c : char) : char :=
  if ascii_isupper c then (c + 32)%N else c.

(** Replace every occurrence of [p] in [s], compared through [fold], by
    [repl]; an empty [p] matches before every character and at the end. *)
Fixpoint replace_folded (fold : char -> char) (p repl : str) (skip : nat) (s : str) : str :=
  match s with
  | [] =>
      match p with
      | [] => repl
      | _ :: _ => []
      end
  | c :: s' =>
      match skip with
      | S n => replace_folded fold p repl n s'
      | O =>
          match p with
          | [] => repl ++ c :: replace_folded fold p repl 0 s'
          | _ :: p' =>
              if startswith (List.map fold p) (List.map fold s)
              then repl ++ replace_folded fold p repl (length p') s'
              else c :: replace_folded fold p repl 0 s'
          end
      end
  end.

(** The substitution of this runtime is the one of [re] for ASCII text
    and a replacement without a backslash; a backslash starts an escape of
    [re.sub], which this runtime does not interpret: it raises. *)
Definition ascii_re_sub_ignorecase (p repl s : str) : result str :=
  if existsb (N.eqb 92%N) repl then Raise ReError
  else Ok (replace_folded ascii_tolower p repl 0 s).

Definition ascii_runtime : runtime := {|
  ch_islower := ascii_islower;
  ch_isupper := ascii_isupper;
  ch_istitle := fun _ => false;
  ch_toupper := ascii_toupper;
  str_lower := List.map ascii_tolower;
  re_sub_ignorecase := ascii_re_sub_ignorecase
|}.

(** ** Title casing *)

Section Title.
Variable rt : runtime.

(** [w.isupper()]: no lower-case or title-case character, and at least
    one upper-case one. *)
Definition isupper (w : str) : bool :=
  negb (existsb (fun c => ch_islower rt c || ch_istitle rt c) w)
  && existsb (ch_isupper rt) w.

(** [s.upper()] *)
Definition upper (s : str) : str := flat_map (ch_toupper rt) s.

Definition fix_word (word : str) : str :=
  if isupper word then word
  else upper (firstn 1 word) ++ skipn 1 word.

Definition smart_title (s : str) : str :=
  join [SPACE] (List.map fix_word (split s)).

End Title.

(** ** The fallback headline *)

(** [max(options, key=len)]: the first of the longest; [ValueError] on an
    empty list. *)
Fixpoint max_loop (best : str) (rest : list str) : str :=
  match rest with
  | [] => best
  | x :: rest' => max_loop (if length best <? length x then x else best) rest'
  end.

Definition max_by_len (options : list str) : result str :=
  match options with
  | [] => Raise ValueError
  | x :: rest => Ok (max_loop x rest)
  end.

Definition DASH : str := [SPACE; EM_DASH; SPACE].

Definition option1 (username message : str) : str :=
  lit "BREAKING: " ++ username ++ lit " Stuns The Internet" ++ DASH ++ message.
Definition option2 (username message : str) : str :=
  lit "ALERT: " ++ username ++ lit " Sparks Frenzy" ++ DASH ++ message.
Definition option3 (username message : str) : str :=
  lit "LIVE NOW: " ++ username ++ lit " Shocks Chat" ++ DASH ++ message.
Definition option4 (username message : str) : str :=
  lit "HEADS UP: " ++ username ++ lit " Just Dropped This" ++ DASH ++ message.

Definition template_fallback (rt : runtime) (username message : str) : result str :=
  let base := strip (lit "BREAKING: " ++ username ++ [SPACE] ++ firstn 80 message) in
  let options := [option1 username message; option2 username message;
                  option3 username message; option4 username message] in
  best <- max_by_len options ;;
  Ok (smart_title rt best).

(** ** The generation backend

    What [requests.post] did is an input of the model: it raised, or it
    returned a response with a status code and a body.  The body is the
    value [resp.json()] decodes, or is not JSON at all. *)

Inductive pyval :=
| PyNone
| PyBool (b : bool)
| PyNum (z : Z)
| PyStr (s : str)
| PyList (l : list pyval)
| PyDict (d : list (str * pyval)).

Inductive backend :=
| PostRaises (e : exn)
| Response (status : Z) (body : option pyval).

Definition post (b : backend) : result (Z * option pyval) :=
  match b with
  | PostRaises e => Raise e
  | Response status body => Ok (status, body)
  end.

(** [resp.raise_for_status()] raises on the 4xx and 5xx codes. *)
Definition raise_for_status (status : Z) : result unit :=
  if ((400 <=? status) && (status <? 600))%Z then Raise (HTTPError status)
  else Ok tt.

Definition resp_json (body : option pyval) : result pyval :=
  match body with
  | Some v => Ok v
  | None => Raise JSONDecodeError
  end.

Fixpoint dict_lookup (key : str) (d : list (str * pyval)) : option pyval :=
  match d with
  | [] => None
  | (k, v) :: d' => if str_eqb k key then Some v else dict_lookup key d'
  end.

(** [v.get(key, default)]: only a dict has the method. *)
Definition py_get (v : pyval) (key : str) (default : pyval) : result pyval :=
  match v with
  | PyDict d =>
      match dict_lookup key d with
      | Some x => Ok x
      | None => Ok default
      end
  | _ => Raise AttributeError
  end.

(** [v.strip()]: only a string has the method. *)
Definition py_strip (v : pyval) : result str :=
  match v with
  | PyStr s => Ok (strip s)
  | _ => Raise AttributeError
  end.

Record config := {
  HEADLINE_MAX_WORDS : Z;
  MESSAGE_RATE : Q
}.

Definition default_config : config :=
  {| HEADLINE_MAX_WORDS := 14; MESSAGE_RATE := 25 # 100 |}.

Inductive output :=
| LogFallback (e : exn)
| LogHeadline (headline : str).

Section Transformer.
Variable cfg : config.
Variable rt : runtime.

(** The body of the [try] block of [generate_headline_local_llm]. *)
Definition primary_path (username message : str) (b : backend) : result str :=
  resp <- post b ;;
  _ <- raise_for_status (fst resp) ;;
  v <- resp_json (snd resp) ;;
  field <- py_get v (lit "response") (PyStr []) ;;
  text <- py_strip field ;;
  match text with
  | [] => Raise ValueError
  | _ =>
      let headline := strip (first_line text) in
      let headline := strip_with (N.eqb SQUOTE) (strip_with (N.eqb DQUOTE) headline) in
      let words := split headline in
      let headline :=
        if (HEADLINE_MAX_WORDS cfg <? Z.of_nat (length words))%Z
        then join [SPACE] (slice_to (HEADLINE_MAX_WORDS cfg) words)
        else headline in
      headline <-
        (if contains (str_lower rt username) (str_lower rt headline)
         then re_sub_ignorecase rt username username headline
         else Ok headline) ;;
      let headline := re_sub WS_RE [SPACE] headline in
      Ok (smart_title rt headline)
  end.

(** The headline, and what the function printed. *)
Definition generate_headline_local_llm (username message : str) (b : backend)
  : list output * result str :=
  match primary_path username message b with
  | Ok headline => ([], Ok headline)
  | Raise e => ([LogFallback e], template_fallback rt username message)
  end.

End Transformer.

(** ** The headline store *)

Definition MAX_HEADLINES : nat := 100.

(** [deque(maxlen=MAX_HEADLINES).appendleft(x)]: push on the left and, when
    that exceeds the bound, drop the rightmost item. *)
Definition appendleft (x : str) (d : list str) : list str :=
  let d' := x :: d in
  if MAX_HEADLINES <? length d' then removelast d' else d'.

Record store := {
  headlines : list str;
  _update_counter : Z
}.

Definition empty_store : store := {| headlines := []; _update_counter := 0 |}.

Definition store_appendleft (x : str) (st : store) : store :=
  {| headlines := appendleft x (headlines st);
     _update_counter := _update_counter st |}.

Definition mark_updated (st : store) : Z * store :=
  let c := (_update_counter st + 1)%Z in
  (c, {| headlines := headlines st; _update_counter := c |}).

Definition get_update_counter (st : store) : Z := _update_counter st.

(** ** The chat listener

    A chat event carries an author (possibly absent) and a content
    (possibly absent).  [draw] is the value [random.random()] returned, a
    float of the interval from 0 (included) to 1 (excluded); comparing
    finite floats compares their values, so draws and rates are
    rationals.  The state of the process is the store, the calls made to
    the Transformer so far and the lines printed. *)

Record message := {
  author : option str;
  content : option str
}.

Record world := {
  st : store;
  transformer_calls : list (str * str);
  stdout : list output
}.

Definition initial_world : world :=
  {| st := empty_store; transformer_calls := []; stdout := [] |}.

(** [message.author.name if message.author else "someone"] and
    [message.content or ""]. *)
Definition message_username (m : message) : str :=
  match author m with
  | Some name => name
  | None => lit "someone"
  end.

Definition message_raw (m : message) : str :=
  match content m with
  | Some c => c
  | None => []
  end.

Section Bot.
Variable cfg : config.
Variable rt : runtime.

Definition event_message (m : message) (draw : Q) (b : backend) (w : world)
  : result world :=
  let username := message_username m in
  let raw := message_raw m in
  let cleaned := clean_message raw in
  match cleaned with
  | [] => Ok w
  | _ =>
      if negb (Qle_bool draw (MESSAGE_RATE cfg)) then Ok w
      else
        let (printed, r) := generate_headline_local_llm cfg rt username cleaned b in
        headline <- r ;;
        let st1 := store_appendleft headline (st w) in
        let st2 := snd (mark_updated st1) in
        Ok {| st := st2;
              transformer_calls := transformer_calls w ++ [(username, cleaned)];
              stdout := stdout w ++ printed ++ [LogHeadline headline] |}
  end.

End Bot.

(** ** The query service *)

Record snapshot := {
  version : Z;
  items : list str
}.

(** [api_headlines] run without interruption. *)
Definition api_headlines (s : store) : snapshot :=
  {| version := get_update_counter s; items := headlines s |}.

(** ** Producer and readers as threads

    The listener runs in one thread and each request of the query service
    in a thread of its own.  The listener touches the store twice per
    accepted event: [headlines.appendleft(headline)], then [mark_updated()].
    A request touches it twice: [get_update_counter()], then
    [list(headlines)], in the order the dictionary literal evaluates them.
    Each of the four is one step: the counter steps hold [_update_lock],
    and the two deque operations are single calls into the interpreter.
    A schedule is the order in which the steps of all threads happen. *)

Inductive producer_pc :=
| Idle
| Appended.

Inductive action :=
| Append (headline : str)
| Bump
| ReadVersion (tid : nat)
| ReadItems (tid : nat).

(** A response, with the number of [appendleft] calls that had happened
    when its items were copied. *)
Record response := {
  body : snapshot;
  appends_seen : nat
}.

Record system := {
  shared : store;
  producer : producer_pc;
  appends : nat;
  readers : list (nat * Z);
  responses : list response
}.

Definition initial_system : system :=
  {| shared := empty_store; producer := Idle; appends := 0;
     readers := []; responses := [] |}.

Fixpoint reader_lookup (tid : nat) (rs : list (nat * Z)) : option Z :=
  match rs with
  | [] => None
  | (t, v) :: rs' => if Nat.eqb t tid then Some v else reader_lookup tid rs'
  end.

Fixpoint reader_remove (tid : nat) (rs : list (nat * Z)) : list (nat * Z) :=
  match rs with
  | [] => []
  | (t, v) :: rs' => if Nat.eqb t tid then rs' else (t, v) :: reader_remove tid rs'
  end.

(** One step; [None] when the thread is not at that statement. *)
Definition step (a : action) (s : system) : option system :=
  match a with
  | Append h =>
      match producer s with
      | Idle =>
          Some {| shared := store_appendleft h (shared s); producer := Appended;
                  appends := S (appends s);
                  readers := readers s; responses := responses s |}
      | Appended => None
      end
  | Bump =>
      match producer s with
      | Appended =>
          Some {| shared := snd (mark_updated (shared s)); producer := Idle;
                  appends := appends s;
                  readers := readers s; responses := responses s |}
      | Idle => None
      end
  | ReadVersion tid =>
      match reader_lookup tid (readers s) with
      | None =>
          Some {| shared := shared s; producer := producer s; appends := appends s;
                  readers := (tid, get_update_counter (shared s)) :: readers s;
                  responses := responses s |}
      | Some _ => None
      end
  | ReadItems tid =>
      match reader_lookup tid (readers s) with
      | Some v =>
          Some {| shared := shared s; producer := producer s; appends := appends s;
                  readers := reader_remove tid (readers s);
                  responses := responses s ++
                    [{| body := {| version := v; items := headlines (shared s) |};
                        appends_seen := appends s |}] |}
      | None => None
      end
  end.

Fixpoint run (schedule : list action) (s : system) : option system :=
  match schedule with
  | [] => Some s
  | a :: rest =>
      match step a s with
      | Some s' => run rest s'
      | None => None
      end
  end.

(** ** The Sanitizer of the specification

    The specification describes the Sanitizer word by word: every URL is
    removed, runs of whitespace become one space, the ends are trimmed, a
    result of more than 300 characters is cut to 300 and an ellipsis.  A URL
    ends where its run of non-whitespace ends, so it lies inside one word
    and removing it cuts the word at the place where the URL starts.
    [url_at] says whether a URL starts at the head of (the rest of) a word. *)

Definition nonempty (w : str) : bool :=
  match w with
  | [] => false
  | _ :: _ => true
  end.

Fixpoint cut_url (url_at : str -> bool) (t : str) : str :=
  match t with
  | [] => []
  | c :: t' => if url_at t then [] else c :: cut_url url_at t'
  end.

Definition normalize (url_at : str -> bool) (text : str) : str :=
  join [SPACE] (filter nonempty (List.map (cut_url url_at) (split text))).

Definition truncate (s : str) : str :=
  if 300 <? length s then firstn 300 s ++ [ELLIPSIS] else s.

Definition sanitize_with (url_at : str -> bool) (text : str) : str :=
  truncate (normalize url_at text).

(** A URL with one of the listed schemes: the scheme, then [://], then at
    least one more character of the word. *)
Definition url_at_schemes (schemes : list str) (t : str) : bool :=
  existsb (fun sch => startswith (sch ++ lit "://") t
                      && (length sch + 3 <? length t)) schemes.

(** A URL with any scheme: a letter followed by letters, digits, [+], [-]
    and [.]. *)
Definition is_alpha (c : char) : bool :=
  ((65 <=? c) && (c <=? 90) || (97 <=? c) && (c <=? 122))%N.

Definition is_scheme_char (c : char) : bool :=
  is_alpha c || ((48 <=? c) && (c <=? 57))%N
  || N.eqb c 43 || N.eqb c 45 || N.eqb c 46.

Definition is_scheme (s : str) : bool :=
  match s with
  | [] => false
  | c :: s' => is_alpha c && forallb is_scheme_char s'
  end.

Definition url_at_any (t : str) : bool :=
  existsb (fun k => is_scheme (firstn k t)
                    && startswith (lit "://") (skipn k t)
                    && (k + 3 <? length t))
          (seq 1 (length t)).

(** The Sanitizer as the specification words it: a URL has any scheme. *)
Definition sanitize_spec (text : str) : str := sanitize_with url_at_any text.

(** The same with the two schemes the program looks for. *)
Definition HTTP_SCHEMES : list str := [lit "http"; lit "https"].

Definition sanitize_http (text : str) : str :=
  sanitize_with (url_at_schemes HTTP_SCHEMES) text.

(** ** Appending a sequence of headlines

    What [event_message] does to the store for one accepted event, and the
    same for a sequence of headlines. *)

Definition append (headline : str) (s : store) : store :=
  snd (mark_updated (store_appendleft headline s)).

Definition append_all (hs : list str) (s : store) : store :=
  fold_left (fun acc h => append h acc) hs s.

(** ** Unicode laws

    Facts of the Unicode database about the upper-case mapping: it is
    never empty, it maps no character other than whitespace to whitespace,
    and the first character of an upper-case mapping is its own upper
    case. *)

Record unicode_laws (rt : runtime) : Prop := {
  toupper_nonempty : forall c, ch_toupper rt c <> [];
  toupper_nonspace : forall c, isspace c = false ->
                               forallb nonspace (ch_toupper rt c) = true;
  toupper_stable : forall c c1 r, ch_toupper rt c = c1 :: r -> ch_toupper rt c1 = [c1]
}.

(** ** Vocabulary of the properties *)

(** A word: a non-empty string without whitespace. *)
Definition is_word (w : str) : Prop :=
  w <> [] /\ forallb nonspace w = true.

(** What title casing does to one word: an all-upper-case word is kept,
    any other word has its first character replaced by that character's
    upper case. *)
Definition title_cased (rt : runtime) (w w' : str) : Prop :=
  (isupper rt w = true /\ w' = w)
  \/ (isupper rt w = false
      /\ exists c tl, w = c :: tl /\ w' = ch_toupper rt c ++ tl).

(** The words of the first template around the author and the message. *)
Definition FIXED_WORDS : list str :=
  [lit "Stuns"; lit "The"; lit "Internet"; [EM_DASH]].

(** Nothing to take or to drop at a character that fails the test. *)
Definition stops (f : char -> bool) (s : str) : Prop :=
  match s with
  | [] => True
  | c :: _ => f c = false
  end.

(** [://\S+] at the start of the rest of a word. *)
Definition TAIL_RE : regex := lits (lit "://") (Plus nonspace).

(** The space left at the front by a leading run of whitespace. *)
Definition lead (s : str) : str :=
  match s with
  | [] => []
  | c :: _ => if isspace c then [SPACE] else []
  end.

(** The message before truncation: its words, cut at their first
    [http://] or [https://] URL, joined by single spaces. *)
Definition cleaned_form (msg : str) : str :=
  normalize (url_at_schemes HTTP_SCHEMES) msg.

(** The ways the generation backend fails: the request raised (network
    error, timeout), the status is a 4xx or 5xx code, the body is not
    JSON, the body is not an object, its [response] field is missing or is
    no string, or the string is empty once stripped. *)
Inductive backend_failure : backend -> Prop :=
| fail_raised e : backend_failure (PostRaises e)
| fail_status status body :
    (400 <= status < 600)%Z -> backend_failure (Response status body)
| fail_not_json status : backend_failure (Response status None)
| fail_not_object status v :
    (forall d, v <> PyDict d) -> backend_failure (Response status (Some v))
| fail_no_field status d :
    dict_lookup (lit "response") d = None ->
    backend_failure (Response status (Some (PyDict d)))
| fail_not_string status d v :
    dict_lookup (lit "response") d = Some v -> (forall s, v <> PyStr s) ->
    backend_failure (Response status (Some (PyDict d)))
| fail_empty status d s :
    dict_lookup (lit "response") d = Some (PyStr s) -> strip s = [] ->
    backend_failure (Response status (Some (PyDict d))).

(** What a response can be relied on for: its version counts appends
    whose headlines had all been appended when the items were copied, and
    the items are as many as the appends made by then, up to the bound. *)
Definition response_ok (r : response) : Prop :=
  (0 <= version (body r) <= Z.of_nat (appends_seen r))%Z
  /\ length (items (body r)) = Nat.min (appends_seen r) MAX_HEADLINES
  /\ Nat.min (Z.to_nat (version (body r))) MAX_HEADLINES <= length (items (body r)).

Definition pending (p : producer_pc) : Z :=
  match p with
  | Idle => 0
  | Appended => 1
  end.

Record system_inv (s : system) : Prop := {
  inv_history : length (headlines (shared s)) = Nat.min (appends s) MAX_HEADLINES;
  inv_counter : _update_counter (shared s) = (Z.of_nat (appends s) - pending (producer s))%Z;
  inv_pending : (pending (producer s) <= Z.of_nat (appends s))%Z;
  inv_readers : forall tid v, In (tid, v) (readers s) ->
                  (0 <= v <= _update_counter (shared s))%Z;
  inv_responses : Forall response_ok (responses s)
}.

(** ** The listener over a sequence of events

    The chat source calls [event_message] once per event, in delivery
    order; an event comes with the draw and the backend outcome it
    meets. *)

Record event := {
  ev_message : message;
  ev_draw : Q;
  ev_backend : backend
}.

Fixpoint run_events (cfg : config) (rt : runtime) (evs : list event) (w : world)
  : result world :=
  match evs with
  | [] => Ok w
  | e :: rest =>
      w' <- event_message cfg rt (ev_message e) (ev_draw e) (ev_backend e) w ;;
      run_events cfg rt rest w'
  end.

(** The events that pass both gates of [event_message]. *)
Definition accepted (cfg : config) (e : event) : bool :=
  nonempty (clean_message (message_raw (ev_message e)))
  && Qle_bool (ev_draw e) (MESSAGE_RATE cfg).

(** What the Transformer is called with for an event, and what it
    returns. *)
Definition transformer_input (e : event) : str * str :=
  (message_username (ev_message e), clean_message (message_raw (ev_message e))).

Definition headline_of (cfg : config) (rt : runtime) (e : event) : str :=
  match snd (generate_headline_local_llm cfg rt (fst (transformer_input e))
               (snd (transformer_input e)) (ev_backend e)) with
  | Ok h => h
  | Raise _ => []
  end.

(** A string without whitespace other than single spaces between its
    words. *)
Definition single_spaced (s : str) : Prop := s = join [SPACE] (split s).

(** ** The prompt

    [str.format] for the fragment the program uses: text, the doubled
    braces that stand for one, and replacement fields that name a keyword
    argument.  A field with a conversion, a format specification, an
    attribute or an index is outside the fragment and is refused.  A
    keyword argument is given by its name and the string it formats to. *)

Definition LBRACE : char := 123%N.
Definition RBRACE : char := 125%N.

(** [str(n)] for an integer. *)
Definition str_of_int (n : Z) : str := lit (NilZero.string_of_int (Z.to_int n)).

Fixpoint kw_lookup (name : str) (kwargs : list (str * str)) : option str :=
  match kwargs with
  | [] => None
  | (k, v) :: rest => if str_eqb k name then Some v else kw_lookup name rest
  end.

Inductive format_mode :=
| InText
| InField (name : str).

(** The characters that end the name of a field or start what the
    fragment leaves out: an exclamation mark, a colon, a dot, an opening
    bracket and an opening brace. *)
Definition field_special (c : char) : bool :=
  N.eqb c 33 || N.eqb c 58 || N.eqb c 46 || N.eqb c 91 || N.eqb c LBRACE.

Fixpoint format_from (kwargs : list (str * str)) (mode : format_mode) (s : str)
  : result str :=
  match s with
  | [] =>
      match mode with
      | InText => Ok []
      | InField _ => Raise ValueError
      end
  | c :: s' =>
      match mode with
      | InText =>
          if N.eqb c LBRACE then
            match s' with
            | c2 :: s'' =>
                if N.eqb c2 LBRACE
                then r <- format_from kwargs InText s'' ;; Ok (LBRACE :: r)
                else format_from kwargs (InField []) s'
            | [] => Raise ValueError
            end
          else if N.eqb c RBRACE then
            match s' with
            | c2 :: s'' =>
                if N.eqb c2 RBRACE
                then r <- format_from kwargs InText s'' ;; Ok (RBRACE :: r)
                else Raise ValueError
            | [] => Raise ValueError
            end
          else r <- format_from kwargs InText s' ;; Ok (c :: r)
      | InField name =>
          if N.eqb c RBRACE then
            match kw_lookup name kwargs with
            | Some v => r <- format_from kwargs InText s' ;; Ok (v ++ r)
            | None => Raise OtherException
            end
          else if field_special c then Raise OtherException
          else format_from kwargs (InField (name ++ [c])) s'
      end
  end.

(** [template.format] with keyword arguments. *)
Definition format (template : str) (kwargs : list (str * str)) : result str :=
  format_from kwargs InText template.

(** The lines of [PROMPT_TEMPLATE] between the word limit and the
    username. *)
Definition PROMPT_RULES : str :=
  lit "- Title Case." ++ [NEWLINE]
  ++ lit "- Keep it short and simple" ++ [NEWLINE]
  ++ lit "- Make sure the headline is complete, no cut-offs" ++ [NEWLINE]
  ++ lit "- No emojis." ++ [NEWLINE]
  ++ lit "- No adult, political, or toxic content." ++ [NEWLINE]
  ++ lit "- Base only on provided username + message." ++ [NEWLINE; NEWLINE]
  ++ lit "- Never add 'notes'" ++ [NEWLINE].

(** The template; its second line is an f-string, filled in when the
    module is loaded. *)
Definition PROMPT_TEMPLATE (cfg : config) : str :=
  lit "Rewrite '{message}' into playful, short, sensational but harmless tabloid headline"
  ++ [NEWLINE]
  ++ lit "- Max " ++ str_of_int (HEADLINE_MAX_WORDS cfg) ++ lit " words." ++ [NEWLINE]
  ++ PROMPT_RULES
  ++ lit "Username: {username}" ++ [NEWLINE]
  ++ lit "Message: {message}" ++ [NEWLINE]
  ++ lit "Always keep {username} intact!" ++ [NEWLINE]
  ++ lit "Final headline in {LANGUAGE} only." ++ [NEWLINE].

(** The first statement of [generate_headline_local_llm], before its
    [try] block. *)
Definition build_prompt (cfg : config) (LANGUAGE username message : str) : result str :=
  format (PROMPT_TEMPLATE cfg)
    [(lit "username", username);
     (lit "message", message);
     (lit "HEADLINE_MAX_WORDS", str_of_int (HEADLINE_MAX_WORDS cfg));
     (lit "LANGUAGE", LANGUAGE)].

(** The function from its first statement on: an exception of the
    first statement is not caught. *)
Definition generate_headline_local_llm_from_prompt (cfg : config) (rt : runtime)
    (LANGUAGE username message : str) (b : backend)
  : result (str * (list output * result str)) :=
  prompt <- build_prompt cfg LANGUAGE username message ;;
  Ok (prompt, generate_headline_local_llm cfg rt username message b).

(** The prompt with the values in place. *)
Definition prompt_text (cfg : config) (LANGUAGE username message : str) : str :=
  lit "Rewrite '" ++ message
  ++ lit "' into playful, short, sensational but harmless tabloid headline"
  ++ [NEWLINE]
  ++ lit "- Max " ++ str_of_int (HEADLINE_MAX_WORDS cfg) ++ lit " words." ++ [NEWLINE]
  ++ PROMPT_RULES
  ++ lit "Username: " ++ username ++ [NEWLINE]
  ++ lit "Message: " ++ message ++ [NEWLINE]
  ++ lit "Always keep " ++ username ++ lit " intact!" ++ [NEWLINE]
  ++ lit "Final headline in " ++ LANGUAGE ++ lit " only." ++ [NEWLINE].

Definition plain (c : char) : bool :=
  negb (N.eqb c LBRACE) && negb (N.eqb c RBRACE).

Definition field_char (c : char) : bool :=
  negb (N.eqb c RBRACE) && negb (field_special c).

(** ** Histories under interleaving *)

(** The headlines a schedule appends, in order. *)
Fixpoint appended (schedule : list action) : list str :=
  match schedule with
  | [] => []
  | Append h :: rest => h :: appended rest
  | _ :: rest => appended rest
  end.

(** The history after the first [n] of the appended headlines. *)
Definition history_after (n : nat) (hs : list str) : list str :=
  firstn MAX_HEADLINES (rev (firstn n hs)).

(** A string that begins and ends inside a word, or is empty. *)
Definition trimmed (s : str) : Prop :=
  s = [] \/ (at_word s = true /\ at_word (rev s) = true).

(** * Properties *)

(** ** Words, [split] and [join] *)

Lemma split_space c s : isspace c = true -> split (c :: s) = split s.
Proof. intros H. simpl. now rewrite H. Qed.

Lemma at_word_split s : at_word s = true -> split s <> [].
Proof.
  destruct s as [|c r]; simpl; [discriminate|].
  intros H. apply negb_true_iff in H. rewrite H.
  destruct (at_word r); [destruct (split r)|]; discriminate.
Qed.

Lemma at_word_app t rest : t <> [] -> at_word (t ++ rest) = at_word t.
Proof. destruct t; [congruence | reflexivity]. Qed.

Lemma word_at_word t : is_word t -> at_word t = true.
Proof.
  intros [Hne Hall]. destruct t as [|c t]; [congruence|].
  simpl in *. apply andb_true_iff in Hall. apply Hall.
Qed.

(** A word followed by whitespace or by the end is the first word. *)
Lemma split_word_app t rest :
  is_word t -> at_word rest = false -> split (t ++ rest) = t :: split rest.
Proof.
  intros [Hne Hall] Hrest. induction t as [|c t IH]; [congruence|].
  simpl in Hall. apply andb_true_iff in Hall. destruct Hall as [Hc Hall].
  unfold nonspace in Hc. apply negb_true_iff in Hc.
  change ((c :: t) ++ rest) with (c :: (t ++ rest)).
  cbn [split]. rewrite Hc.
  destruct t as [|c' t'].
  - cbn [app]. now rewrite Hrest.
  - rewrite at_word_app by discriminate.
    assert (Hw : is_word (c' :: t')) by (split; [discriminate | exact Hall]).
    rewrite (word_at_word Hw).
    rewrite IH by (discriminate || exact Hall). reflexivity.
Qed.

Lemma split_word t : is_word t -> split t = [t].
Proof.
  intros H. rewrite <- (app_nil_r t) at 1.
  now rewrite split_word_app.
Qed.

Lemma split_words s : Forall is_word (split s).
Proof.
  induction s as [|c r IH]; [constructor|].
  cbn [split]. destruct (isspace c) eqn:Hc; [exact IH|].
  assert (Hn : nonspace c = true) by (unfold nonspace; now rewrite Hc).
  destruct (at_word r).
  - destruct (split r) as [|w ws].
    + repeat constructor; [discriminate | simpl; now rewrite Hn].
    + inversion IH as [|? ? [_ Hw] Hws]; subst. constructor; [|exact Hws].
      split; [discriminate | simpl; now rewrite Hn, Hw].
  - constructor; [|exact IH].
    split; [discriminate | simpl; now rewrite Hn].
Qed.

Lemma isspace_SPACE : isspace SPACE = true.
Proof. reflexivity. Qed.

Lemma split_join ws : Forall is_word ws -> split (join [SPACE] ws) = ws.
Proof.
  induction ws as [|w ws IH]; [reflexivity|].
  intros H. inversion H as [|? ? Hw Hws]; subst.
  destruct ws as [|w2 ws'].
  - cbn [join]. now apply split_word.
  - change (join [SPACE] (w :: w2 :: ws'))
      with (w ++ SPACE :: join [SPACE] (w2 :: ws')).
    rewrite split_word_app by (assumption || reflexivity).
    rewrite split_space by reflexivity. now rewrite IH.
Qed.

(** Words never span a whitespace character. *)
Lemma split_app_space x sp y :
  isspace sp = true -> split (x ++ sp :: y) = split x ++ split y.
Proof.
  intros Hsp. induction x as [|c x IH].
  - cbn [app]. now rewrite split_space.
  - change ((c :: x) ++ sp :: y) with (c :: (x ++ sp :: y)).
    cbn [split]. destruct (isspace c); [exact IH|].
    rewrite IH. destruct x as [|c' x'].
    + cbn [app at_word split]. now rewrite Hsp.
    + rewrite at_word_app by discriminate.
      destruct (at_word (c' :: x')) eqn:Hat; [|reflexivity].
      apply at_word_split in Hat.
      destruct (split (c' :: x')); [congruence | reflexivity].
Qed.

Lemma join_cons sep w ws :
  ws <> [] -> join sep (w :: ws) = w ++ sep ++ join sep ws.
Proof. destruct ws; [congruence | reflexivity]. Qed.

Lemma join_app sep xs ys :
  xs <> [] -> ys <> [] ->
  join sep (xs ++ ys) = join sep xs ++ sep ++ join sep ys.
Proof.
  intros Hx Hy. induction xs as [|x xs IH]; [congruence|].
  destruct xs as [|x2 xs'].
  - cbn [app join]. now apply join_cons.
  - change ((x :: x2 :: xs') ++ ys) with (x :: (x2 :: xs') ++ ys).
    rewrite (join_cons sep x (ws := (x2 :: xs') ++ ys)) by discriminate.
    rewrite IH by discriminate.
    rewrite (join_cons sep x (ws := x2 :: xs')) by discriminate.
    now rewrite <- !app_assoc.
Qed.

(** ** Title casing *)

Section TitleProperties.
Variable rt : runtime.
Hypothesis laws : unicode_laws rt.

Lemma upper_one c : upper rt [c] = ch_toupper rt c.
Proof. unfold upper. simpl. apply app_nil_r. Qed.

Lemma fix_word_cons c tl :
  fix_word rt (c :: tl) =
  if isupper rt (c :: tl) then c :: tl else ch_toupper rt c ++ tl.
Proof.
  unfold fix_word. destruct (isupper rt (c :: tl)); [reflexivity|].
  cbn [firstn skipn]. now rewrite upper_one.
Qed.

Lemma fix_word_title_cased w : is_word w -> title_cased rt w (fix_word rt w).
Proof.
  intros [Hne _]. destruct w as [|c tl]; [congruence|].
  rewrite fix_word_cons. destruct (isupper rt (c :: tl)) eqn:E.
  - left. now split.
  - right. split; [exact E|]. now exists c, tl.
Qed.

Lemma fix_word_word w : is_word w -> is_word (fix_word rt w).
Proof.
  intros Hw. destruct Hw as [Hne Hall]. destruct w as [|c tl]; [congruence|].
  rewrite fix_word_cons. destruct (isupper rt (c :: tl)); [now split|].
  simpl in Hall. apply andb_true_iff in Hall. destruct Hall as [Hc Htl].
  split.
  - intros H. apply app_eq_nil in H. destruct H as [H _].
    now apply (toupper_nonempty laws) in H.
  - rewrite forallb_app, Htl, andb_true_r.
    apply (toupper_nonspace laws). unfold nonspace in Hc.
    now apply negb_true_iff in Hc.
Qed.

Lemma fix_word_idem w : fix_word rt (fix_word rt w) = fix_word rt w.
Proof.
  destruct w as [|c tl]; [reflexivity|].
  rewrite fix_word_cons. destruct (isupper rt (c :: tl)) eqn:E.
  - now rewrite fix_word_cons, E.
  - destruct (ch_toupper rt c) as [|c1 r] eqn:Hup.
    + now apply (toupper_nonempty laws) in Hup.
    + change ((c1 :: r) ++ tl) with (c1 :: (r ++ tl)).
      rewrite fix_word_cons.
      destruct (isupper rt (c1 :: r ++ tl)); [reflexivity|].
      now rewrite (toupper_stable laws _ Hup).
Qed.

Lemma split_smart_title s :
  split (smart_title rt s) = List.map (fix_word rt) (split s).
Proof.
  unfold smart_title. apply split_join.
  apply Forall_forall. intros w' Hin. apply in_map_iff in Hin.
  destruct Hin as [w [<- Hin]]. apply fix_word_word.
  exact (proj1 (Forall_forall _ _) (split_words s) w Hin).
Qed.

Lemma smart_title_idem s : smart_title rt (smart_title rt s) = smart_title rt s.
Proof.
  unfold smart_title at 1. rewrite split_smart_title, map_map.
  unfold smart_title. f_equal. apply map_ext. intros w. apply fix_word_idem.
Qed.

Lemma map_title_cased ws :
  Forall is_word ws -> Forall2 (title_cased rt) ws (List.map (fix_word rt) ws).
Proof.
  induction 1 as [|w ws Hw _ IH]; constructor.
  - now apply fix_word_title_cased.
  - exact IH.
Qed.

End TitleProperties.

(** The ASCII runtime satisfies the laws. *)
Lemma ascii_toupper_nonspace c :
  isspace c = false -> forallb nonspace (ascii_toupper c) = true.
Proof.
  intros Hc. unfold ascii_toupper, ascii_islower.
  destruct ((97 <=? c)%N && (c <=? 122)%N) eqn:E; cbn [forallb]; rewrite andb_true_r.
  - apply andb_true_iff in E. destruct E as [E1 E2].
    apply N.leb_le in E1, E2.
    unfold nonspace, isspace, whitespace. cbn [existsb].
    apply negb_true_iff. rewrite !orb_false_iff.
    repeat split; try reflexivity; apply N.eqb_neq; lia.
  - unfold nonspace. now rewrite Hc.
Qed.

Lemma ascii_laws : unicode_laws ascii_runtime.
Proof.
  constructor; cbn [ch_toupper ascii_runtime].
  - intros c. unfold ascii_toupper. destruct (ascii_islower c); discriminate.
  - exact ascii_toupper_nonspace.
  - intros c c1 r. unfold ascii_toupper.
    destruct (ascii_islower c) eqn:E; intros H; injection H as <- <-.
    + unfold ascii_islower in *. apply andb_true_iff in E. destruct E as [E1 E2].
      apply N.leb_le in E1, E2.
      replace ((97 <=? c - 32)%N) with false; [reflexivity|].
      symmetry. apply N.leb_gt. lia.
    + now rewrite E.
Qed.

Example smart_title_example :
  smart_title ascii_runtime (lit "  breaking NEWS: alice  wins 2day ")
  = lit "Breaking NEWS: Alice Wins 2day".
Proof. reflexivity. Qed.

(** C8. Title casing: the words of [smart_title s] are, one for one, the
    words of [s], each either unchanged (an all-upper-case word) or with
    its first character upper-cased; and [smart_title] applied twice gives
    the same as applied once.  It holds for every runtime whose upper-case
    mapping obeys the Unicode laws. *)
Theorem smart_title_tokens_idempotent (rt : runtime) (laws : unicode_laws rt) (s : str) :
  Forall2 (title_cased rt) (split s) (split (smart_title rt s))
  /\ smart_title rt (smart_title rt s) = smart_title rt s.
Proof.
  split.
  - rewrite (split_smart_title laws). apply map_title_cased, split_words.
  - apply (smart_title_idem laws).
Qed.

Lemma smart_title_tokens_idempotent_witness :
  unicode_laws ascii_runtime
  /\ (Forall2 (title_cased ascii_runtime)
        (split (lit "hello WORLD"))
        (split (smart_title ascii_runtime (lit "hello WORLD")))
      /\ smart_title ascii_runtime (smart_title ascii_runtime (lit "hello WORLD"))
         = smart_title ascii_runtime (lit "hello WORLD")).
Proof.
  split.
  - exact ascii_laws.
  - exact (@smart_title_tokens_idempotent ascii_runtime ascii_laws (lit "hello WORLD")).
Defined.

(** ** The fallback headline *)

Lemma length_option1 u m : length (option1 u m) = 32 + length u + length m.
Proof. unfold option1, DASH. rewrite !length_app. simpl. lia. Qed.

Lemma length_option2 u m : length (option2 u m) = 24 + length u + length m.
Proof. unfold option2, DASH. rewrite !length_app. simpl. lia. Qed.

Lemma length_option3 u m : length (option3 u m) = 25 + length u + length m.
Proof. unfold option3, DASH. rewrite !length_app. simpl. lia. Qed.

Lemma length_option4 u m : length (option4 u m) = 31 + length u + length m.
Proof. unfold option4, DASH. rewrite !length_app. simpl. lia. Qed.

Lemma max_by_len_options u m :
  max_by_len [option1 u m; option2 u m; option3 u m; option4 u m]
  = Ok (option1 u m).
Proof.
  unfold max_by_len. cbn [max_loop].
  pose proof (length_option1 u m) as H1. pose proof (length_option2 u m) as H2.
  pose proof (length_option3 u m) as H3. pose proof (length_option4 u m) as H4.
  replace (length (option1 u m) <? length (option2 u m)) with false
    by (symmetry; apply Nat.ltb_ge; lia).
  replace (length (option1 u m) <? length (option3 u m)) with false
    by (symmetry; apply Nat.ltb_ge; lia).
  replace (length (option1 u m) <? length (option4 u m)) with false
    by (symmetry; apply Nat.ltb_ge; lia).
  reflexivity.
Qed.

Lemma template_fallback_option1 rt u m :
  template_fallback rt u m = Ok (smart_title rt (option1 u m)).
Proof. unfold template_fallback. now rewrite max_by_len_options. Qed.

(** C10. The longest rendering is always the first template: each
    template embeds the author and the message once, the fixed text of the
    first has 32 characters and that of the others 24, 25 and 31, so
    [max] selects the first and [template_fallback] returns its title-cased
    form, whatever the author and the message. *)
Theorem template_fallback_selects_first (rt : runtime) (u m : str) :
  length (option1 u m) = 32 + length u + length m
  /\ length (option2 u m) = 24 + length u + length m
  /\ length (option3 u m) = 25 + length u + length m
  /\ length (option4 u m) = 31 + length u + length m
  /\ max_by_len [option1 u m; option2 u m; option3 u m; option4 u m]
     = Ok (option1 u m)
  /\ option1 u m <> option2 u m
  /\ option1 u m <> option3 u m
  /\ option1 u m <> option4 u m
  /\ template_fallback rt u m = Ok (smart_title rt (option1 u m)).
Proof.
  pose proof (length_option1 u m) as H1. pose proof (length_option2 u m) as H2.
  pose proof (length_option3 u m) as H3. pose proof (length_option4 u m) as H4.
  repeat split; try assumption.
  - apply max_by_len_options.
  - intros E. rewrite E in H1. lia.
  - intros E. rewrite E in H1. lia.
  - intros E. rewrite E in H1. lia.
  - apply template_fallback_option1.
Qed.

Lemma join_app_glue sep xs ys :
  exists glue, join sep (xs ++ ys) = join sep xs ++ glue ++ join sep ys.
Proof.
  destruct xs as [|x xs].
  - exists []. reflexivity.
  - destruct ys as [|y ys].
    + exists []. now rewrite !app_nil_r.
    + exists sep. apply join_app; discriminate.
Qed.

Lemma split_option1 u m :
  split (option1 u m) = [lit "BREAKING:"] ++ split u ++ FIXED_WORDS ++ split m.
Proof.
  unfold option1, DASH.
  change (lit "BREAKING: " ++ u ++ lit " Stuns The Internet" ++ [SPACE; EM_DASH; SPACE] ++ m)
    with (lit "BREAKING:" ++ SPACE :: (u ++ SPACE :: (lit "Stuns The Internet"
            ++ SPACE :: ([EM_DASH] ++ SPACE :: m)))).
  now rewrite !split_app_space by reflexivity.
Qed.

Lemma template_fallback_words rt u m :
  template_fallback rt u m =
  Ok (join [SPACE] (List.map (fix_word rt)
        ([lit "BREAKING:"] ++ split u ++ FIXED_WORDS ++ split m))).
Proof.
  rewrite template_fallback_option1. unfold smart_title.
  now rewrite split_option1.
Qed.

(** The number of words of the fallback headline: five fixed words and
    the words of the author and of the message. *)
Lemma template_fallback_word_count rt (laws : unicode_laws rt) u m :
  exists h, template_fallback rt u m = Ok h
            /\ length (split h) = 5 + length (split u) + length (split m).
Proof.
  eexists. split; [apply template_fallback_option1|].
  rewrite (split_smart_title laws), length_map, split_option1.
  rewrite !length_app. simpl. lia.
Qed.

(** C4, as stated, fails: for the author [alice] and the message [hi] the
    fallback headline contains neither, it contains [Alice] and [Hi]. *)
Lemma template_fallback_author_not_verbatim :
  template_fallback ascii_runtime (lit "alice") (lit "hi")
  = Ok (lit "BREAKING: Alice Stuns The Internet" ++ DASH ++ lit "Hi")
  /\ contains (lit "alice")
       (lit "BREAKING: Alice Stuns The Internet" ++ DASH ++ lit "Hi") = false
  /\ contains (lit "hi")
       (lit "BREAKING: Alice Stuns The Internet" ++ DASH ++ lit "Hi") = false.
Proof. repeat split; vm_compute; reflexivity. Qed.

(** C4, amended. [template_fallback] returns exactly one string for an
    author and a message; the string is the title-cased words of
    [BREAKING:], the author, [Stuns The Internet], the dash and the message,
    joined by single spaces; so it contains the title-cased author and,
    behind it, the title-cased message, and it contains the author (the
    message) exactly as given whenever title casing leaves it unchanged. *)
Theorem template_fallback_contains_title_cased (rt : runtime) (u m : str) :
  (exists! h, template_fallback rt u m = Ok h)
  /\ template_fallback rt u m =
     Ok (join [SPACE] (List.map (fix_word rt)
           ([lit "BREAKING:"] ++ split u ++ FIXED_WORDS ++ split m)))
  /\ (exists pre mid post,
        template_fallback rt u m =
        Ok (pre ++ smart_title rt u ++ mid ++ smart_title rt m ++ post))
  /\ (smart_title rt u = u ->
      exists pre post, template_fallback rt u m = Ok (pre ++ u ++ post))
  /\ (smart_title rt m = m ->
      exists pre, template_fallback rt u m = Ok (pre ++ m)).
Proof.
  assert (Hex : exists pre mid,
             template_fallback rt u m =
             Ok (pre ++ smart_title rt u ++ mid ++ smart_title rt m)).
  { rewrite template_fallback_words. rewrite !map_app. unfold smart_title.
    destruct (join_app_glue [SPACE] (List.map (fix_word rt) [lit "BREAKING:"])
                (List.map (fix_word rt) (split u)
                 ++ List.map (fix_word rt) FIXED_WORDS
                 ++ List.map (fix_word rt) (split m))) as [g1 ->].
    destruct (join_app_glue [SPACE] (List.map (fix_word rt) (split u))
                (List.map (fix_word rt) FIXED_WORDS
                 ++ List.map (fix_word rt) (split m))) as [g2 ->].
    destruct (join_app_glue [SPACE] (List.map (fix_word rt) FIXED_WORDS)
                (List.map (fix_word rt) (split m))) as [g3 ->].
    exists (join [SPACE] (List.map (fix_word rt) [lit "BREAKING:"]) ++ g1).
    exists (g2 ++ join [SPACE] (List.map (fix_word rt) FIXED_WORDS) ++ g3).
    now rewrite <- !app_assoc. }
  destruct Hex as [pre [mid Hex]].
  split; [|split; [|split; [|split]]].
  - exists (smart_title rt (option1 u m)). split.
    + apply template_fallback_option1.
    + intros h H. rewrite template_fallback_option1 in H. now injection H.
  - apply template_fallback_words.
  - exists pre, mid, []. now rewrite app_nil_r.
  - intros Hu. exists pre, (mid ++ smart_title rt m).
    rewrite Hex, Hu. reflexivity.
  - intros Hm. exists (pre ++ smart_title rt u ++ mid).
    rewrite Hex, Hm. now rewrite <- !app_assoc.
Qed.

(** C3 fails on the fallback path: with the generation backend down, an
    author of one word and a message of ten words give a headline of
    sixteen words, above the limit of fourteen. *)
Lemma fallback_exceeds_word_limit :
  snd (generate_headline_local_llm default_config ascii_runtime
         (lit "alice") (lit "a b c d e f g h i j") (PostRaises ConnectionError))
  = Ok (lit "BREAKING: Alice Stuns The Internet" ++ DASH ++ lit "A B C D E F G H I J")
  /\ length (split (lit "BREAKING: Alice Stuns The Internet" ++ DASH
                    ++ lit "A B C D E F G H I J")) = 16
  /\ (HEADLINE_MAX_WORDS default_config < 16)%Z.
Proof. repeat split; vm_compute; reflexivity. Qed.

(** ** Prefixes and runs *)

Lemma takewhile_dropwhile f s : takewhile f s ++ dropwhile f s = s.
Proof.
  induction s as [|c r IH]; [reflexivity|].
  simpl. destruct (f c); [simpl; now rewrite IH | reflexivity].
Qed.

Lemma takewhile_nil_dropwhile f s : takewhile f s = [] -> dropwhile f s = s.
Proof. destruct s as [|c r]; [reflexivity|]. simpl. now destruct (f c). Qed.

Lemma dropwhile_all f a b : forallb f a = true -> dropwhile f (a ++ b) = dropwhile f b.
Proof.
  induction a as [|c a IH]; [reflexivity|].
  simpl. intros H. apply andb_true_iff in H. destruct H as [Hc Ha].
  rewrite Hc. now apply IH.
Qed.

Lemma takewhile_all f a b : forallb f a = true -> takewhile f (a ++ b) = a ++ takewhile f b.
Proof.
  induction a as [|c a IH]; [reflexivity|].
  simpl. intros H. apply andb_true_iff in H. destruct H as [Hc Ha].
  rewrite Hc. now rewrite IH.
Qed.

Lemma dropwhile_stops f s : stops f s -> dropwhile f s = s.
Proof. destruct s as [|c r]; [reflexivity|]. simpl. now intros ->. Qed.

Lemma takewhile_stops f s : stops f s -> takewhile f s = [].
Proof. destruct s as [|c r]; [reflexivity|]. simpl. now intros ->. Qed.

Lemma dropwhile_stops_self f s : stops f (dropwhile f s).
Proof.
  induction s as [|c r IH]; [exact I|].
  simpl. destruct (f c) eqn:E; [exact IH | exact E].
Qed.

Lemma at_word_false_stops rest : at_word rest = false -> stops nonspace rest.
Proof.
  destruct rest as [|c r]; [intros _; exact I|].
  simpl. unfold nonspace. now intros ->.
Qed.

Lemma length_dropwhile f s : length (dropwhile f s) <= length s.
Proof.
  induction s as [|c r IH]; [reflexivity|].
  simpl. destruct (f c); simpl; lia.
Qed.

Lemma split_dropwhile s : split (dropwhile isspace s) = split s.
Proof.
  induction s as [|c r IH]; [reflexivity|].
  cbn [dropwhile]. destruct (isspace c) eqn:E; [|reflexivity].
  now rewrite split_space.
Qed.

Lemma startswith_app p q s :
  startswith (p ++ q) s = startswith p s && startswith q (skipn (length p) s).
Proof.
  revert s. induction p as [|a p IH]; intros s.
  - reflexivity.
  - destruct s as [|b s]; [reflexivity|].
    cbn [app startswith length skipn]. rewrite IH. apply andb_assoc.
Qed.

Lemma startswith_length p s : startswith p s = true -> length p <= length s.
Proof.
  revert s. induction p as [|a p IH]; intros s H; [simpl; lia|].
  destruct s as [|b s]; [discriminate|].
  simpl in H. apply andb_true_iff in H. destruct H as [_ H].
  apply IH in H. simpl. lia.
Qed.

Lemma space_not_nonspace sp a : isspace sp = true -> nonspace a = true -> N.eqb sp a = false.
Proof.
  intros Hsp Ha. destruct (N.eqb_spec sp a) as [->|]; [|reflexivity].
  unfold nonspace in Ha. now rewrite Hsp in Ha.
Qed.

(** A prefix without whitespace lies inside the first word. *)
Lemma startswith_word p t rest :
  forallb nonspace p = true -> at_word rest = false ->
  startswith p (t ++ rest) = startswith p t.
Proof.
  intros Hp Hrest. revert t. induction p as [|a p IH]; intros t; [reflexivity|].
  simpl in Hp. apply andb_true_iff in Hp. destruct Hp as [Ha Hp].
  destruct t as [|c t].
  - cbn [app]. destruct rest as [|sp rest']; [reflexivity|].
    simpl in Hrest. apply negb_false_iff in Hrest.
    cbn [startswith]. now rewrite (@space_not_nonspace sp a Hrest Ha).
  - cbn [app startswith]. now rewrite IH.
Qed.

(** ** Matching *)

Lemma rmatch_plus f s :
  rmatch (Plus f) s (fun rest => Some rest) =
  match takewhile f s with
  | [] => None
  | _ :: _ => Some (dropwhile f s)
  end.
Proof.
  induction s as [|c r IH]; [reflexivity|].
  change (rmatch (Plus f) (c :: r) (fun rest => Some rest))
    with (if f c
          then match rmatch (Plus f) r (fun rest => Some rest) with
               | Some rest => Some rest
               | None => Some r
               end
          else None).
  cbn [takewhile dropwhile]. destruct (f c); [|reflexivity].
  rewrite IH. destruct (takewhile f r) eqn:E; [|reflexivity].
  now rewrite (takewhile_nil_dropwhile _ _ E).
Qed.

Lemma rmatch_lits p r s k :
  rmatch (lits p r) s k =
  if startswith p s then rmatch r (skipn (length p) s) k else None.
Proof.
  revert s. induction p as [|a p IH]; intros s; [reflexivity|].
  destruct s as [|b s]; [reflexivity|].
  cbn [lits rmatch startswith length skipn].
  destruct (N.eqb b a); [apply IH | reflexivity].
Qed.

(** The rest of the input behind a run of [f] that fills the word [t]. *)
Lemma rmatch_plus_word t rest :
  forallb nonspace t = true -> at_word rest = false ->
  rmatch (Plus nonspace) (t ++ rest) (fun x => Some x) =
  match t with
  | [] => None
  | _ :: _ => Some rest
  end.
Proof.
  intros Ht Hrest. apply at_word_false_stops in Hrest.
  rewrite rmatch_plus, takewhile_all, dropwhile_all by exact Ht.
  rewrite (takewhile_stops _ _ Hrest), (dropwhile_stops _ _ Hrest), app_nil_r.
  reflexivity.
Qed.

Lemma forallb_skipn (f : char -> bool) n s :
  forallb f s = true -> forallb f (skipn n s) = true.
Proof.
  revert s. induction n as [|n IH]; intros s H; [exact H|].
  destruct s as [|c s]; [reflexivity|].
  simpl in H. apply andb_true_iff in H. simpl. apply IH, H.
Qed.

Lemma skipn_startswith p t rest :
  startswith p t = true -> skipn (length p) (t ++ rest) = skipn (length p) t ++ rest.
Proof.
  intros H. apply startswith_length in H. rewrite skipn_app.
  replace (length p - length t) with 0 by lia. reflexivity.
Qed.

Lemma rmatch_tail_word t rest :
  forallb nonspace t = true -> at_word rest = false ->
  rmatch TAIL_RE (t ++ rest) (fun x => Some x) =
  if startswith (lit "://") t && (3 <? length t) then Some rest else None.
Proof.
  intros Ht Hrest. unfold TAIL_RE. rewrite rmatch_lits.
  rewrite startswith_word by (reflexivity || assumption).
  destruct (startswith (lit "://") t) eqn:E; [|reflexivity].
  rewrite (skipn_startswith _ _ rest E).
  rewrite rmatch_plus_word by (try apply forallb_skipn; assumption).
  change (length (lit "://")) with 3. cbn [andb].
  pose proof (length_skipn 3 t) as Hl.
  destruct (skipn 3 t) eqn:Es; simpl in Hl.
  - replace (3 <? length t) with false; [reflexivity|].
    symmetry. apply Nat.ltb_ge. lia.
  - replace (3 <? length t) with true; [reflexivity|].
    symmetry. apply Nat.ltb_lt. lia.
Qed.

(** [url_at_schemes HTTP_SCHEMES] spelled out on the characters behind
    [http]: either [://] and more, or [s], [://] and more. *)
Lemma url_at_http t :
  url_at_schemes HTTP_SCHEMES t =
  startswith (lit "http") t
  && ((startswith (lit "://") (skipn 4 t) && (3 <? length (skipn 4 t)))
      || (startswith [115%N] (skipn 4 t)
          && (startswith (lit "://") (skipn 1 (skipn 4 t))
              && (3 <? length (skipn 1 (skipn 4 t)))))).
Proof.
  unfold url_at_schemes, HTTP_SCHEMES. cbn [existsb].
  change (lit "https") with (lit "http" ++ [115%N]).
  rewrite <- app_assoc, !startswith_app.
  change (length (lit "http")) with 4. change (length [115%N]) with 1.
  change (length (lit "http" ++ [115%N])) with 5.
  rewrite !length_skipn.
  replace (4 + 3 <? length t) with (3 <? length t - 4)
    by (destruct (Nat.ltb_spec 3 (length t - 4)); symmetry;
        [apply Nat.ltb_lt | apply Nat.ltb_ge]; lia).
  replace (5 + 3 <? length t) with (3 <? length t - 4 - 1)
    by (destruct (Nat.ltb_spec 3 (length t - 4 - 1)); symmetry;
        [apply Nat.ltb_lt | apply Nat.ltb_ge]; lia).
  destruct (startswith (lit "http") t); [|reflexivity].
  cbn [andb]. now rewrite orb_false_r, andb_assoc.
Qed.

Lemma rmatch_url_word t rest :
  forallb nonspace t = true -> at_word rest = false ->
  rmatch URL_RE (t ++ rest) (fun x => Some x) =
  if url_at_schemes HTTP_SCHEMES t then Some rest else None.
Proof.
  intros Ht Hrest. rewrite url_at_http.
  change URL_RE with (lits (lit "http") (Cat (Opt (Lit 115%N)) TAIL_RE)).
  rewrite rmatch_lits, startswith_word by (reflexivity || assumption).
  destruct (startswith (lit "http") t) eqn:E; [|reflexivity].
  rewrite (skipn_startswith _ _ rest E). change (length (lit "http")) with 4.
  assert (Ht4 : forallb nonspace (skipn 4 t) = true) by now apply forallb_skipn.
  cbn [andb]. generalize dependent (skipn 4 t). clear E Ht t.
  intros t4 Ht4.
  change (rmatch (Cat (Opt (Lit 115%N)) TAIL_RE) (t4 ++ rest) (fun x => Some x))
    with (match rmatch (Lit 115%N) (t4 ++ rest)
                  (fun s1 => rmatch TAIL_RE s1 (fun x => Some x)) with
          | Some r => Some r
          | None => rmatch TAIL_RE (t4 ++ rest) (fun x => Some x)
          end).
  destruct t4 as [|c t5].
  - rewrite (rmatch_tail_word [] rest) by (reflexivity || assumption).
    cbn [app]. destruct rest as [|sp rest']; [reflexivity|].
    simpl in Hrest. apply negb_false_iff in Hrest.
    cbn [rmatch]. now rewrite (@space_not_nonspace sp 115%N Hrest eq_refl).
  - assert (Ht5 : forallb nonspace t5 = true).
    { simpl in Ht4. apply andb_true_iff in Ht4. apply Ht4. }
    rewrite (rmatch_tail_word (c :: t5) rest) by assumption.
    change ((c :: t5) ++ rest) with (c :: (t5 ++ rest)).
    cbn [rmatch skipn startswith andb].
    destruct (N.eqb_spec c 115%N) as [->|Hc].
    + rewrite (rmatch_tail_word t5 rest) by assumption.
      cbn [N.eqb Pos.eqb andb orb].
      now destruct (startswith (lit "://") t5 && (3 <? length t5)).
    + cbn [andb]. now rewrite orb_false_r.
Qed.

Lemma match_len_url_word t rest :
  forallb nonspace t = true -> at_word rest = false ->
  match_len URL_RE (t ++ rest) =
  if url_at_schemes HTTP_SCHEMES t then Some (length t) else None.
Proof.
  intros Ht Hrest. unfold match_len. rewrite rmatch_url_word by assumption.
  destruct (url_at_schemes HTTP_SCHEMES t); [|reflexivity].
  rewrite length_app. f_equal. lia.
Qed.

Lemma match_len_url_space c s : isspace c = true -> match_len URL_RE (c :: s) = None.
Proof.
  intros Hc. unfold match_len.
  change URL_RE with (lits (lit "http") (Cat (Opt (Lit 115%N)) TAIL_RE)).
  rewrite rmatch_lits. cbn [lit List.map list_ascii_of_string startswith].
  now rewrite (@space_not_nonspace c (N_of_ascii "h") Hc eq_refl).
Qed.

Lemma match_len_ws s :
  match_len WS_RE s =
  match takewhile isspace s with
  | [] => None
  | run => Some (length run)
  end.
Proof.
  unfold match_len, WS_RE. rewrite rmatch_plus.
  destruct (takewhile isspace s) eqn:E; [reflexivity|].
  rewrite <- (takewhile_dropwhile isspace s) at 1.
  rewrite length_app, E. f_equal. lia.
Qed.

(** ** Substitution *)

Lemma re_sub_from_skip r repl a s :
  re_sub_from r repl (length a) (a ++ s) = re_sub_from r repl 0 s.
Proof. induction a as [|c a IH]; [reflexivity | exact IH]. Qed.

Lemma collapse_space c r :
  isspace c = true ->
  re_sub WS_RE [SPACE] (c :: r) = SPACE :: re_sub WS_RE [SPACE] (dropwhile isspace r).
Proof.
  intros Hc. unfold re_sub. cbn [re_sub_from]. rewrite match_len_ws.
  cbn [takewhile]. rewrite Hc. cbn [length app].
  rewrite <- (takewhile_dropwhile isspace r) at 2.
  now rewrite re_sub_from_skip.
Qed.

Lemma collapse_nonspace c r :
  isspace c = false ->
  re_sub WS_RE [SPACE] (c :: r) = c :: re_sub WS_RE [SPACE] r.
Proof.
  intros Hc. unfold re_sub. cbn [re_sub_from]. rewrite match_len_ws.
  cbn [takewhile]. now rewrite Hc.
Qed.

Lemma remove_url_space c r :
  isspace c = true -> re_sub URL_RE [] (c :: r) = c :: re_sub URL_RE [] r.
Proof.
  intros Hc. unfold re_sub. cbn [re_sub_from].
  now rewrite match_len_url_space.
Qed.

Lemma cut_url_nonspace f t :
  forallb nonspace t = true -> forallb nonspace (cut_url f t) = true.
Proof.
  induction t as [|c t IH]; [reflexivity|].
  intros H. simpl in H. apply andb_true_iff in H. destruct H as [Hc Ht].
  cbn [cut_url]. destruct (f (c :: t)); [reflexivity|].
  simpl. now rewrite Hc, IH.
Qed.

(** Removing the URLs cuts each word where its first URL starts. *)
Lemma remove_url_word t rest :
  forallb nonspace t = true -> at_word rest = false ->
  re_sub URL_RE [] (t ++ rest)
  = cut_url (url_at_schemes HTTP_SCHEMES) t ++ re_sub URL_RE [] rest.
Proof.
  intros Ht Hrest. induction t as [|c t IH]; [reflexivity|].
  assert (Ht' : forallb nonspace t = true).
  { simpl in Ht. apply andb_true_iff in Ht. apply Ht. }
  unfold re_sub in *. change ((c :: t) ++ rest) with (c :: (t ++ rest)).
  cbn [re_sub_from cut_url].
  change (c :: (t ++ rest)) with ((c :: t) ++ rest).
  rewrite match_len_url_word by assumption.
  destruct (url_at_schemes HTTP_SCHEMES (c :: t)).
  - cbn [length app]. apply re_sub_from_skip.
  - cbn [app]. f_equal. now apply IH.
Qed.

Lemma remove_url_at_word rest :
  at_word rest = false -> at_word (re_sub URL_RE [] rest) = false.
Proof.
  destruct rest as [|c r]; [reflexivity|].
  simpl. intros H. apply negb_false_iff in H.
  rewrite remove_url_space by exact H. simpl. now rewrite H.
Qed.

(** Every string is empty, or a whitespace character before a string, or
    a word before a string that does not go on with the word. *)
Lemma chunk_ind (P : str -> Prop) :
  P [] ->
  (forall c s, isspace c = true -> P s -> P (c :: s)) ->
  (forall t rest, is_word t -> at_word rest = false -> P rest -> P (t ++ rest)) ->
  forall s, P s.
Proof.
  intros Hnil Hspace Hword s.
  remember (length s) as n eqn:Hn.
  assert (Hle : length s <= n) by lia. clear Hn.
  revert s Hle. induction n as [|n IH]; intros s Hle.
  - destruct s; [exact Hnil | simpl in Hle; lia].
  - destruct s as [|c r]; [exact Hnil|].
    simpl in Hle. destruct (isspace c) eqn:Hc.
    + apply Hspace; [exact Hc | apply IH; lia].
    + rewrite <- (takewhile_dropwhile nonspace r).
      change (c :: takewhile nonspace r ++ dropwhile nonspace r)
        with ((c :: takewhile nonspace r) ++ dropwhile nonspace r).
      apply Hword.
      * split; [discriminate|]. simpl. unfold nonspace at 1. rewrite Hc. simpl.
        clear. induction r as [|x r IHr]; [reflexivity|].
        simpl. destruct (nonspace x) eqn:E; [simpl; now rewrite E | reflexivity].
      * pose proof (dropwhile_stops_self nonspace r) as Hs.
        destruct (dropwhile nonspace r) as [|x d]; [reflexivity|].
        simpl in *. unfold nonspace in Hs. exact Hs.
      * apply IH. pose proof (length_dropwhile nonspace r). lia.
Qed.

Lemma split_remove_url s :
  split (re_sub URL_RE [] s)
  = filter nonempty (List.map (cut_url (url_at_schemes HTTP_SCHEMES)) (split s)).
Proof.
  induction s as [| c s Hc IH | t rest Ht Hrest IH] using chunk_ind.
  - reflexivity.
  - rewrite remove_url_space, !split_space by exact Hc. exact IH.
  - destruct Ht as [Hne Hall].
    rewrite remove_url_word by assumption.
    rewrite (@split_word_app t rest) by (assumption || now split).
    cbn [List.map filter]. rewrite <- IH.
    pose proof (cut_url_nonspace (url_at_schemes HTTP_SCHEMES) t Hall) as Hcut.
    destruct (cut_url (url_at_schemes HTTP_SCHEMES) t) as [|x w] eqn:E.
    + reflexivity.
    + cbn [nonempty]. apply split_word_app.
      * split; [discriminate | exact Hcut].
      * now apply remove_url_at_word.
Qed.

(** ** Collapsing whitespace and trimming *)

Lemma join_cons_char c w ws :
  join [SPACE] ((c :: w) :: ws) = c :: join [SPACE] (w :: ws).
Proof. destruct ws; reflexivity. Qed.

(** Collapsing keeps the words, joined by single spaces, with at most a
    space in front and whitespace behind. *)
Lemma collapse_shape n : forall s, length s <= n ->
  exists post, forallb isspace post = true
               /\ re_sub WS_RE [SPACE] s = lead s ++ join [SPACE] (split s) ++ post.
Proof.
  induction n as [|n IH]; intros s Hle.
  - destruct s; [|simpl in Hle; lia]. now exists [].
  - destruct s as [|c r]; [now exists []|].
    simpl in Hle. destruct (isspace c) eqn:Hc.
    + rewrite collapse_space, split_space by exact Hc.
      destruct (IH (dropwhile isspace r)) as [post [Hpost Heq]].
      { pose proof (length_dropwhile isspace r). lia. }
      exists post. split; [exact Hpost|].
      rewrite Heq, split_dropwhile. cbn [lead]. rewrite Hc.
      pose proof (dropwhile_stops_self isspace r) as Hs.
      destruct (dropwhile isspace r) as [|x d]; [reflexivity|].
      simpl in Hs. cbn [lead]. now rewrite Hs.
    + rewrite collapse_nonspace by exact Hc.
      destruct (IH r) as [post [Hpost Heq]]; [lia|].
      rewrite Heq. cbn [lead split]. rewrite Hc. cbn [app].
      destruct r as [|c2 r2].
      * exists post. split; [exact Hpost | reflexivity].
      * cbn [lead at_word]. destruct (isspace c2) eqn:Hc2; cbn [negb].
        -- destruct (split (c2 :: r2)) as [|w ws] eqn:Es.
           ++ exists (SPACE :: post). split; [simpl; now rewrite Hpost | reflexivity].
           ++ exists post. split; [exact Hpost | reflexivity].
        -- assert (Hat : at_word (c2 :: r2) = true) by (simpl; now rewrite Hc2).
           apply at_word_split in Hat.
           destruct (split (c2 :: r2)) as [|w ws]; [congruence|].
           exists post. split; [exact Hpost|]. now rewrite join_cons_char.
Qed.

Lemma forallb_rev (f : char -> bool) l : forallb f l = true -> forallb f (rev l) = true.
Proof.
  intros H. apply forallb_forall. intros x Hx. apply in_rev in Hx.
  exact (proj1 (forallb_forall f l) H x Hx).
Qed.

Lemma at_word_nonempty s : at_word s = true -> s <> [].
Proof. destruct s; [discriminate | discriminate]. Qed.

(** Joined words begin and end inside a word. *)
Lemma join_bounds ws :
  Forall is_word ws -> ws <> [] ->
  at_word (join [SPACE] ws) = true /\ at_word (rev (join [SPACE] ws)) = true.
Proof.
  induction 1 as [|w ws Hw Hws IH]; [congruence|]. intros _.
  destruct ws as [|w2 ws'].
  - cbn [join]. split; [now apply word_at_word|].
    apply word_at_word. destruct Hw as [Hne Hall]. split.
    + intros E. apply Hne. rewrite <- (rev_involutive w), E. reflexivity.
    + now apply forallb_rev.
  - destruct IH as [_ IH]; [discriminate|].
    rewrite join_cons by discriminate. split.
    + rewrite at_word_app by apply Hw. now apply word_at_word.
    + rewrite !rev_app_distr. rewrite <- app_assoc.
      rewrite at_word_app by now apply at_word_nonempty.
      exact IH.
Qed.

Lemma at_word_stops s rest : at_word s = true -> stops isspace (s ++ rest).
Proof.
  destruct s as [|c r]; [discriminate|].
  simpl. intros H. now apply negb_true_iff in H.
Qed.

Lemma strip_core pre core post :
  forallb isspace pre = true -> forallb isspace post = true ->
  core = [] \/ (at_word core = true /\ at_word (rev core) = true) ->
  strip (pre ++ core ++ post) = core.
Proof.
  intros Hpre Hpost Hcore. unfold strip, strip_with.
  rewrite dropwhile_all by exact Hpre.
  destruct Hcore as [-> | [Hfirst Hlast]].
  - cbn [app]. rewrite <- (app_nil_r post), dropwhile_all by exact Hpost.
    reflexivity.
  - rewrite (dropwhile_stops _ _ (at_word_stops core post Hfirst)).
    rewrite rev_app_distr, dropwhile_all by now apply forallb_rev.
    rewrite <- (app_nil_r (rev core)).
    rewrite (dropwhile_stops _ _ (at_word_stops (rev core) [] Hlast)).
    now rewrite app_nil_r, rev_involutive.
Qed.

Lemma lead_space s : forallb isspace (lead s) = true.
Proof. destruct s as [|c r]; [reflexivity|]. simpl. now destruct (isspace c). Qed.

(** Collapsing and trimming leaves the words joined by single spaces. *)
Lemma strip_collapse s : strip (re_sub WS_RE [SPACE] s) = join [SPACE] (split s).
Proof.
  destruct (@collapse_shape (length s) s (le_n _)) as [post [Hpost ->]].
  apply strip_core; [apply lead_space | exact Hpost |].
  destruct (split s) as [|w ws] eqn:E; [now left|].
  right. apply join_bounds; [|discriminate].
  rewrite <- E. apply split_words.
Qed.

Lemma split_collapse s : split (re_sub WS_RE [SPACE] s) = split s.
Proof.
  destruct (@collapse_shape (length s) s (le_n _)) as [post [Hpost ->]].
  pose proof (split_words s) as Hw.
  assert (Hpostsplit : forall p, forallb isspace p = true -> split p = []).
  { induction p as [|x p IHp]; [reflexivity|]. simpl. intros H.
    apply andb_true_iff in H. destruct H as [Hx Hp]. rewrite Hx. now apply IHp. }
  assert (Hcore : split (join [SPACE] (split s) ++ post) = split s).
  { destruct post as [|x post'].
    - rewrite app_nil_r. now apply split_join.
    - simpl in Hpost. apply andb_true_iff in Hpost. destruct Hpost as [Hx Hp].
      rewrite split_app_space by exact Hx.
      rewrite split_join by exact Hw. rewrite (Hpostsplit _ Hp). apply app_nil_r. }
  destruct s as [|c r]; [exact Hcore|].
  cbn [lead]. destruct (isspace c); [|exact Hcore].
  cbn [app]. rewrite split_space by reflexivity. exact Hcore.
Qed.

(** ** The Sanitizer *)

Lemma clean_message_sanitize_http msg : clean_message msg = sanitize_http msg.
Proof.
  destruct msg as [|c r]; [reflexivity|].
  unfold clean_message, sanitize_http, sanitize_with, truncate, normalize.
  now rewrite strip_collapse, split_remove_url.
Qed.

Lemma split_all_space p : forallb isspace p = true -> split p = [].
Proof.
  induction p as [|x p IH]; [reflexivity|]. simpl. intros H.
  apply andb_true_iff in H. destruct H as [Hx Hp]. rewrite Hx. now apply IH.
Qed.

Lemma cut_words (f : str -> bool) ws :
  Forall is_word ws ->
  Forall is_word (filter nonempty (List.map (cut_url f) ws)).
Proof.
  induction 1 as [|w ws [_ Hw] _ IH]; [constructor|].
  cbn [List.map filter].
  pose proof (cut_url_nonspace f w Hw) as Hcut.
  destruct (cut_url f w); [exact IH|].
  cbn [nonempty]. constructor; [|exact IH]. split; [discriminate | exact Hcut].
Qed.

Lemma split_cleaned_form msg :
  split (cleaned_form msg)
  = filter nonempty (List.map (cut_url (url_at_schemes HTTP_SCHEMES)) (split msg)).
Proof. apply split_join, cut_words, split_words. Qed.

Lemma startswith_mono p x y : startswith p x = true -> startswith p (x ++ y) = true.
Proof.
  revert x. induction p as [|a p IH]; intros x H; [reflexivity|].
  destruct x as [|b x]; [discriminate|].
  simpl in H |- *. apply andb_true_iff in H. destruct H as [Hb Hp].
  now rewrite Hb, IH.
Qed.

(** A URL that starts a string starts every extension of the string. *)
Lemma url_at_mono schemes x y :
  url_at_schemes schemes x = true -> url_at_schemes schemes (x ++ y) = true.
Proof.
  unfold url_at_schemes. intros H. apply existsb_exists in H.
  destruct H as [sch [Hin H]]. apply existsb_exists. exists sch. split; [exact Hin|].
  apply andb_true_iff in H. destruct H as [Hs Hl].
  rewrite (startswith_mono _ _ y Hs). apply Nat.ltb_lt in Hl.
  apply Nat.ltb_lt. rewrite length_app. lia.
Qed.

Lemma cut_url_prefix f t : exists rest, t = cut_url f t ++ rest.
Proof.
  induction t as [|c t [rest IH]]; [now exists []|].
  cbn [cut_url]. destruct (f (c :: t)).
  - now exists (c :: t).
  - exists rest. cbn [app]. now rewrite <- IH.
Qed.

Lemma url_at_nil schemes : url_at_schemes schemes [] = false.
Proof.
  unfold url_at_schemes. apply not_true_is_false. intros H.
  apply existsb_exists in H. destruct H as [sch [_ H]].
  apply andb_true_iff in H. destruct H as [_ H].
  apply Nat.ltb_lt in H. simpl in H. lia.
Qed.

(** No URL starts anywhere in a word once it is cut. *)
Lemma cut_url_free schemes t i :
  url_at_schemes schemes (skipn i (cut_url (url_at_schemes schemes) t)) = false.
Proof.
  revert i. induction t as [|c t IH]; intros i.
  - cbn [cut_url]. rewrite skipn_nil. apply url_at_nil.
  - cbn [cut_url]. destruct (url_at_schemes schemes (c :: t)) eqn:E.
    + rewrite skipn_nil. apply url_at_nil.
    + destruct i as [|i]; [|apply IH].
      cbn [skipn]. apply not_true_is_false. intros H.
      destruct (cut_url_prefix (url_at_schemes schemes) t) as [rest Hrest].
      apply (url_at_mono _ _ rest) in H. cbn [app] in H.
      rewrite <- Hrest in H. congruence.
Qed.

(** C6, as stated, fails: a URL with another scheme is a substring of the
    form scheme, [://], non-whitespace run, and [clean_message] keeps it,
    where the Sanitizer of the specification removes it. *)
Lemma clean_message_keeps_other_schemes :
  clean_message (lit "see ftp://x.co now") = lit "see ftp://x.co now"
  /\ contains (lit "ftp://x.co") (clean_message (lit "see ftp://x.co now")) = true
  /\ sanitize_spec (lit "see ftp://x.co now") = lit "see now"
  /\ clean_message (lit "see ftp://x.co now") <> sanitize_spec (lit "see ftp://x.co now").
Proof.
  repeat split; try (vm_compute; reflexivity).
  vm_compute. discriminate.
Qed.

(** C6, amended: the URLs removed are those with the scheme [http] or
    [https].  [clean_message] equals the Sanitizer of the specification
    restricted to these two schemes: the cleaned form is the words of the
    input, each cut where its first such URL starts, joined by single
    spaces, so no such URL starts anywhere in a word of it and it has no
    whitespace at its ends; an empty or whitespace-only input gives the
    empty string; a cleaned form of more than 300 characters gives 301
    characters, the first 300 and the ellipsis; a shorter one is returned
    as it is. *)
Theorem clean_message_refines_sanitize_http (msg : str) :
  clean_message msg = sanitize_http msg
  /\ cleaned_form msg = join [SPACE] (split (cleaned_form msg))
  /\ Forall (fun w => forall i, url_at_schemes HTTP_SCHEMES (skipn i w) = false)
            (split (cleaned_form msg))
  /\ (forallb isspace msg = true -> clean_message msg = [])
  /\ (300 < length (cleaned_form msg) ->
      clean_message msg = firstn 300 (cleaned_form msg) ++ [ELLIPSIS]
      /\ length (clean_message msg) = 301)
  /\ (length (cleaned_form msg) <= 300 -> clean_message msg = cleaned_form msg).
Proof.
  rewrite clean_message_sanitize_http.
  unfold sanitize_http, sanitize_with, truncate. fold (cleaned_form msg).
  split; [reflexivity|]. split; [|split; [|split; [|split]]].
  - now rewrite split_cleaned_form.
  - rewrite split_cleaned_form. apply Forall_forall. intros w Hw.
    apply filter_In in Hw. destruct Hw as [Hw _].
    apply in_map_iff in Hw. destruct Hw as [t [<- _]].
    intros i. apply cut_url_free.
  - intros Hsp. unfold cleaned_form, normalize.
    now rewrite (split_all_space _ Hsp).
  - intros Hlen. apply Nat.ltb_lt in Hlen. rewrite Hlen.
    split; [reflexivity|]. apply Nat.ltb_lt in Hlen.
    rewrite length_app, firstn_length_le by lia. reflexivity.
  - intros Hlen. apply Nat.ltb_ge in Hlen. now rewrite Hlen.
Qed.

(** ** The Transformer *)

Section TransformerProperties.
Variable cfg : config.
Variable rt : runtime.

Lemma raise_for_status_ok status :
  raise_for_status status = Ok tt \/
  ((400 <= status < 600)%Z /\ raise_for_status status = Raise (HTTPError status)).
Proof.
  unfold raise_for_status.
  destruct ((400 <=? status)%Z && (status <? 600)%Z) eqn:E; [right | now left].
  apply andb_true_iff in E. destruct E as [E1 E2].
  apply Z.leb_le in E1. apply Z.ltb_lt in E2. split; [lia | reflexivity].
Qed.

Lemma primary_path_failure u m b :
  backend_failure b -> exists e, primary_path cfg rt u m b = Raise e.
Proof.
  intros H. unfold primary_path.
  destruct H as [e | status body Hs | status | status v Hv | status d Hd
                 | status d v Hd Hv | status d s Hd Hs]; cbn [post bind fst snd].
  - now exists e.
  - exists (HTTPError status). unfold raise_for_status.
    replace ((400 <=? status)%Z && (status <? 600)%Z) with true; [reflexivity|].
    symmetry. apply andb_true_iff. split; [apply Z.leb_le | apply Z.ltb_lt]; lia.
  - destruct (raise_for_status_ok status) as [-> | [_ ->]]; cbn [bind resp_json];
      eexists; reflexivity.
  - destruct (raise_for_status_ok status) as [-> | [_ ->]]; cbn [bind resp_json];
      [|eexists; reflexivity].
    destruct v; try (eexists; reflexivity). now destruct (Hv d).
  - destruct (raise_for_status_ok status) as [-> | [_ ->]];
      cbn [bind resp_json py_get]; [|eexists; reflexivity].
    rewrite Hd. cbn [bind py_strip]. exists ValueError. reflexivity.
  - destruct (raise_for_status_ok status) as [-> | [_ ->]];
      cbn [bind resp_json py_get]; [|eexists; reflexivity].
    rewrite Hd. cbn [bind].
    destruct v; try (eexists; reflexivity). now destruct (Hv s).
  - destruct (raise_for_status_ok status) as [-> | [_ ->]];
      cbn [bind resp_json py_get]; [|eexists; reflexivity].
    rewrite Hd. cbn [bind py_strip]. rewrite Hs. exists ValueError. reflexivity.
Qed.

Lemma generate_total u m b :
  exists h, snd (generate_headline_local_llm cfg rt u m b) = Ok h.
Proof.
  unfold generate_headline_local_llm.
  destruct (primary_path cfg rt u m b) as [h | e]; cbn [snd].
  - now exists h.
  - rewrite template_fallback_option1. eexists; reflexivity.
Qed.

Lemma generate_fallback u m b e :
  primary_path cfg rt u m b = Raise e ->
  generate_headline_local_llm cfg rt u m b
  = ([LogFallback e], Ok (smart_title rt (option1 u m))).
Proof.
  intros H. unfold generate_headline_local_llm.
  now rewrite H, template_fallback_option1.
Qed.

End TransformerProperties.

(** C5. The Transformer is total: whatever the backend does,
    [generate_headline_local_llm] returns a string; whenever the primary
    path raises, for whatever reason, the result is exactly the output of
    [template_fallback], which itself cannot raise; and a network error,
    a timeout, a non-success status and an empty or malformed body each
    make the primary path raise. *)
Theorem transformer_total (cfg : config) (rt : runtime) (u m : str) (b : backend) :
  (exists h, snd (generate_headline_local_llm cfg rt u m b) = Ok h)
  /\ (exists h, template_fallback rt u m = Ok h)
  /\ (forall e, primary_path cfg rt u m b = Raise e ->
        generate_headline_local_llm cfg rt u m b
        = ([LogFallback e], template_fallback rt u m))
  /\ (backend_failure b ->
        snd (generate_headline_local_llm cfg rt u m b) = template_fallback rt u m).
Proof.
  split; [|split; [|split]].
  - apply generate_total.
  - rewrite template_fallback_option1. eexists; reflexivity.
  - intros e H. rewrite (generate_fallback _ _ _ _ _ H).
    now rewrite template_fallback_option1.
  - intros Hb. destruct (primary_path_failure cfg rt u m Hb) as [e He].
    rewrite (generate_fallback _ _ _ _ _ He).
    now rewrite template_fallback_option1.
Qed.

(** ** The chat listener *)

Section BotProperties.
Variable cfg : config.
Variable rt : runtime.

Lemma event_message_empty m draw b w :
  clean_message (message_raw m) = [] -> event_message cfg rt m draw b w = Ok w.
Proof. intros H. unfold event_message. now rewrite H. Qed.

Lemma event_message_rejected m draw b w :
  Qle_bool draw (MESSAGE_RATE cfg) = false -> event_message cfg rt m draw b w = Ok w.
Proof.
  intros H. unfold event_message. rewrite H.
  now destruct (clean_message (message_raw m)).
Qed.

Lemma event_message_accepted m draw b w :
  clean_message (message_raw m) <> [] ->
  Qle_bool draw (MESSAGE_RATE cfg) = true ->
  exists headline,
    snd (generate_headline_local_llm cfg rt (message_username m)
           (clean_message (message_raw m)) b) = Ok headline
    /\ event_message cfg rt m draw b w =
       Ok {| st := append headline (st w);
             transformer_calls :=
               transformer_calls w
               ++ [(message_username m, clean_message (message_raw m))];
             stdout :=
               stdout w
               ++ fst (generate_headline_local_llm cfg rt (message_username m)
                         (clean_message (message_raw m)) b)
               ++ [LogHeadline headline] |}.
Proof.
  intros Hne Hq. unfold event_message. rewrite Hq. cbn [negb].
  destruct (clean_message (message_raw m)) as [|c r] eqn:E; [congruence|].
  destruct (generate_total cfg rt (message_username m) (c :: r) b) as [h Hh].
  exists h. split; [exact Hh|].
  destruct (generate_headline_local_llm cfg rt (message_username m) (c :: r) b)
    as [printed res].
  cbn [snd fst] in *. subst res. reflexivity.
Qed.

End BotProperties.

(** C7, as stated, fails: with the sampling rate 0 a draw of exactly 0 is
    not above the rate, so the event reaches the Transformer and the store
    is changed. *)
Lemma sampling_rate_zero_draw_zero :
  (0 <= 0 /\ 0 < 1)%Q
  /\ exists w,
       event_message {| HEADLINE_MAX_WORDS := 14; MESSAGE_RATE := 0 |} ascii_runtime
         {| author := Some (lit "alice"); content := Some (lit "hi") |}
         0%Q (PostRaises ConnectionError) initial_world = Ok w
       /\ transformer_calls w = [(lit "alice", lit "hi")]
       /\ _update_counter (st w) = 1%Z
       /\ length (headlines (st w)) = 1.
Proof.
  split; [split; [apply Qle_refl | reflexivity]|].
  eexists. split; [vm_compute; reflexivity|].
  repeat split.
Qed.

(** C7, amended: with the sampling rate 0, every event whose draw is above
    0 is dropped before the Transformer and leaves the state as it was;
    with the sampling rate 1, every event whose sanitized text is not empty
    reaches the Transformer, whatever the draw below 1. *)
Theorem sampling_gate (cfg : config) (rt : runtime) (m : message) (draw : Q)
    (b : backend) (w : world) :
  (0 <= draw)%Q -> (draw < 1)%Q ->
  ((MESSAGE_RATE cfg == 0)%Q -> (0 < draw)%Q ->
     event_message cfg rt m draw b w = Ok w)
  /\ ((MESSAGE_RATE cfg == 1)%Q -> clean_message (message_raw m) <> [] ->
      exists w',
        event_message cfg rt m draw b w = Ok w'
        /\ transformer_calls w' =
           transformer_calls w
           ++ [(message_username m, clean_message (message_raw m))]
        /\ _update_counter (st w') = (_update_counter (st w) + 1)%Z).
Proof.
  intros H0 H1. split.
  - intros Hrate Hpos. apply event_message_rejected.
    apply not_true_is_false. intros Hle. apply Qle_bool_iff in Hle.
    rewrite Hrate in Hle. now apply Qlt_not_le in Hpos.
  - intros Hrate Hne.
    assert (Hq : Qle_bool draw (MESSAGE_RATE cfg) = true).
    { apply Qle_bool_iff. rewrite Hrate. now apply Qlt_le_weak. }
    destruct (@event_message_accepted cfg rt m draw b w Hne Hq) as [h [_ ->]].
    eexists. split; [reflexivity|]. split; reflexivity.
Qed.

Lemma sampling_gate_witness :
  ((0 <= 1 # 2)%Q /\ (1 # 2 < 1)%Q)
  /\ event_message {| HEADLINE_MAX_WORDS := 14; MESSAGE_RATE := 0 |} ascii_runtime
       {| author := Some (lit "alice"); content := Some (lit "hi") |}
       (1 # 2) (PostRaises ConnectionError) initial_world = Ok initial_world
  /\ exists w',
       event_message {| HEADLINE_MAX_WORDS := 14; MESSAGE_RATE := 1 |} ascii_runtime
         {| author := Some (lit "alice"); content := Some (lit "hi") |}
         (1 # 2) (PostRaises ConnectionError) initial_world = Ok w'
       /\ transformer_calls w' =
          transformer_calls initial_world
          ++ [(message_username {| author := Some (lit "alice"); content := Some (lit "hi") |},
               clean_message (message_raw {| author := Some (lit "alice"); content := Some (lit "hi") |}))]
       /\ _update_counter (st w') = (_update_counter (st initial_world) + 1)%Z.
Proof.
  assert (Hlo : (0 <= 1 # 2)%Q) by (unfold Qle; simpl; lia).
  assert (Hhi : (1 # 2 < 1)%Q) by reflexivity.
  split; [now split|]. split.
  - apply (proj1 (@sampling_gate {| HEADLINE_MAX_WORDS := 14; MESSAGE_RATE := 0 |}
                    ascii_runtime
                    {| author := Some (lit "alice"); content := Some (lit "hi") |}
                    (1 # 2) (PostRaises ConnectionError) initial_world Hlo Hhi));
      reflexivity.
  - apply (proj2 (@sampling_gate {| HEADLINE_MAX_WORDS := 14; MESSAGE_RATE := 1 |}
                    ascii_runtime
                    {| author := Some (lit "alice"); content := Some (lit "hi") |}
                    (1 # 2) (PostRaises ConnectionError) initial_world Hlo Hhi)).
    + reflexivity.
    + vm_compute. discriminate.
Defined.

(** C9. An event whose text sanitizes to the empty string is discarded:
    [event_message] returns with the state as it was, so the Transformer is
    not called, the history and the counter are unchanged and nothing is
    printed. *)
Theorem empty_input_discarded (cfg : config) (rt : runtime) (m : message)
    (draw : Q) (b : backend) (w : world) :
  clean_message (message_raw m) = [] ->
  event_message cfg rt m draw b w = Ok w.
Proof. intros H. now apply event_message_empty. Qed.

Lemma empty_input_discarded_witness :
  clean_message (message_raw {| author := Some (lit "alice");
                                content := Some (lit "  http://x.co/a  ") |}) = []
  /\ event_message default_config ascii_runtime
       {| author := Some (lit "alice"); content := Some (lit "  http://x.co/a  ") |}
       0%Q (PostRaises Timeout) initial_world = Ok initial_world.
Proof.
  assert (H : clean_message (message_raw {| author := Some (lit "alice");
                content := Some (lit "  http://x.co/a  ") |}) = [])
    by reflexivity.
  split; [exact H|].
  exact (@empty_input_discarded default_config ascii_runtime _ 0%Q
           (PostRaises Timeout) initial_world H).
Defined.

(** ** The headline store *)

Lemma appendleft_firstn x d :
  length d <= MAX_HEADLINES -> appendleft x d = firstn MAX_HEADLINES (x :: d).
Proof.
  intros H. unfold appendleft.
  destruct (Nat.ltb_spec MAX_HEADLINES (length (x :: d))) as [Hlt | Hge].
  - rewrite removelast_firstn_len. simpl in Hlt |- *.
    replace (length d) with MAX_HEADLINES by lia. reflexivity.
  - symmetry. apply firstn_all2. exact Hge.
Qed.

Lemma firstn_cons_firstn (n : nat) (x : str) (l : list str) :
  0 < n -> firstn n (x :: firstn n l) = firstn n (x :: l).
Proof.
  destruct n as [|n]; [lia|]. intros _.
  change (firstn (S n) (x :: firstn (S n) l)) with (x :: firstn n (firstn (S n) l)).
  change (firstn (S n) (x :: l)) with (x :: firstn n l).
  rewrite firstn_firstn. do 2 f_equal. lia.
Qed.

Lemma append_all_snoc hs h s : append_all (hs ++ [h]) s = append h (append_all hs s).
Proof. unfold append_all. now rewrite fold_left_app. Qed.

(** The history holds the most recent headlines, most recent first, and
    the counter counts the appends. *)
Lemma append_all_state hs :
  headlines (append_all hs empty_store) = firstn MAX_HEADLINES (rev hs)
  /\ _update_counter (append_all hs empty_store) = Z.of_nat (length hs).
Proof.
  induction hs as [|h hs [IHh IHc]] using rev_ind; [now split|].
  rewrite append_all_snoc. unfold append, mark_updated, store_appendleft.
  cbn [snd headlines _update_counter]. split.
  - rewrite IHh, appendleft_firstn by (rewrite length_firstn; lia).
    rewrite rev_app_distr. cbn [rev app].
    apply firstn_cons_firstn. unfold MAX_HEADLINES. lia.
  - rewrite IHc, length_app. simpl. lia.
Qed.

(** C2. From the empty store with version 0, after any sequence of
    appends (each [appendleft] followed by [mark_updated]) the history has
    at most [MAX_HEADLINES] = 100 entries, also between the two statements
    of the next append, and the counter equals the number of appends;
    this holds after every prefix of the sequence, so the counter goes
    up by exactly one with each append. *)
Theorem headline_store_invariant (hs : list str) (k : nat) (h : str) :
  MAX_HEADLINES = 100
  /\ length (headlines (append_all (firstn k hs) empty_store)) <= MAX_HEADLINES
  /\ length (headlines (store_appendleft h (append_all (firstn k hs) empty_store)))
     <= MAX_HEADLINES
  /\ _update_counter (append_all (firstn k hs) empty_store)
     = Z.of_nat (Nat.min k (length hs))
  /\ _update_counter (append_all hs empty_store) = Z.of_nat (length hs)
  /\ _update_counter (append_all (hs ++ [h]) empty_store)
     = (_update_counter (append_all hs empty_store) + 1)%Z.
Proof.
  destruct (append_all_state (firstn k hs)) as [Hh Hc].
  destruct (append_all_state hs) as [_ Hc'].
  assert (Hlen : length (headlines (append_all (firstn k hs) empty_store))
                 <= MAX_HEADLINES).
  { rewrite Hh, length_firstn. lia. }
  repeat split.
  - exact Hlen.
  - cbn [store_appendleft headlines].
    rewrite appendleft_firstn by exact Hlen. rewrite length_firstn. lia.
  - now rewrite Hc, length_firstn.
  - exact Hc'.
  - rewrite append_all_snoc. reflexivity.
Qed.

(** ** Snapshots under interleaving *)

Lemma reader_lookup_In tid rs v : reader_lookup tid rs = Some v -> In (tid, v) rs.
Proof.
  induction rs as [|[t x] rs IH]; [discriminate|].
  cbn [reader_lookup]. destruct (Nat.eqb_spec t tid) as [->|].
  - intros H. injection H as ->. now left.
  - intros H. right. now apply IH.
Qed.

Lemma reader_remove_In tid rs x : In x (reader_remove tid rs) -> In x rs.
Proof.
  induction rs as [|[t v] rs IH]; [easy|].
  cbn [reader_remove]. destruct (Nat.eqb t tid).
  - intros H. now right.
  - intros [H | H]; [now left | right; now apply IH].
Qed.

Lemma initial_system_inv : system_inv initial_system.
Proof.
  constructor; cbn [initial_system shared producer appends readers responses
                    empty_store headlines _update_counter pending length].
  - reflexivity.
  - reflexivity.
  - lia.
  - intros tid v [].
  - constructor.
Qed.

Lemma step_inv a s s' : step a s = Some s' -> system_inv s -> system_inv s'.
Proof.
  intros Hstep [Hh Hc Hp Hr Hresp].
  destruct a as [h | | tid | tid]; cbn [step] in Hstep.
  - destruct (producer s) eqn:Ep; [|discriminate].
    injection Hstep as <-. cbn [pending] in *.
    constructor; cbn [shared producer appends readers responses pending
                      store_appendleft headlines _update_counter].
    + rewrite appendleft_firstn by lia. rewrite length_firstn. cbn [length]. lia.
    + lia.
    + lia.
    + exact Hr.
    + exact Hresp.
  - destruct (producer s) eqn:Ep; [discriminate|].
    injection Hstep as <-. cbn [pending] in *.
    constructor; cbn [shared producer appends readers responses pending
                      mark_updated snd headlines _update_counter].
    + exact Hh.
    + lia.
    + lia.
    + intros t v Hin. specialize (Hr t v Hin). lia.
    + exact Hresp.
  - destruct (reader_lookup tid (readers s)); [discriminate|].
    injection Hstep as <-.
    constructor; cbn [shared producer appends readers responses]; try assumption.
    intros t v [Hin | Hin]; [|now apply (Hr t)].
    injection Hin as <- <-. unfold get_update_counter.
    destruct (producer s); cbn [pending] in *; lia.
  - destruct (reader_lookup tid (readers s)) as [v|] eqn:El; [|discriminate].
    injection Hstep as <-. apply reader_lookup_In in El.
    constructor; cbn [shared producer appends readers responses]; try assumption.
    + intros t x Hin. apply reader_remove_In in Hin. now apply (Hr t).
    + apply Forall_app. split; [exact Hresp|]. constructor; [|constructor].
      specialize (Hr tid v El).
      unfold response_ok. cbn [body version items appends_seen].
      assert (Hv : (0 <= v <= Z.of_nat (appends s))%Z)
        by (destruct (producer s); cbn [pending] in *; lia).
      repeat split; lia.
Qed.

Lemma run_inv schedule : forall s s',
  run schedule s = Some s' -> system_inv s -> system_inv s'.
Proof.
  induction schedule as [|a rest IH]; intros s s' Hrun Hinv.
  - injection Hrun as <-. exact Hinv.
  - cbn [run] in Hrun. destruct (step a s) as [s1|] eqn:Es; [|discriminate].
    apply (IH s1 s' Hrun). exact (@step_inv a s s1 Es Hinv).
Qed.

(** C1, as stated, fails: when a request runs between the two statements
    of an append, its response has the new headline and the old version,
    here one item under version 0. *)
Lemma torn_snapshot :
  exists s,
    run [Append (lit "x"); ReadVersion 0; ReadItems 0; Bump] initial_system = Some s
    /\ List.map body (responses s)
       = [{| version := 0; items := [lit "x"] |}]
    /\ length [lit "x"] <> Nat.min (Z.to_nat 0) MAX_HEADLINES.
Proof.
  eexists. split; [reflexivity|]. split; [reflexivity|].
  vm_compute. discriminate.
Qed.

(** C1, amended: the version half of the claim holds, the headline half
    does not.  For every interleaving of appends and requests, a response
    never reports a version whose headline is missing: its version is at
    most the number of appends whose headline had been appended when the
    items were copied, the items are as many as those appends (up to the
    bound), hence at least as many as the version tells.  And whenever no
    append is half done, a request that runs without interruption reports a
    version equal to the number of appends, with items to match. *)
Theorem snapshot_version_never_ahead (schedule : list action) (s : system) :
  run schedule initial_system = Some s ->
  Forall response_ok (responses s)
  /\ (producer s = Idle ->
      version (api_headlines (shared s)) = Z.of_nat (appends s)
      /\ length (items (api_headlines (shared s)))
         = Nat.min (appends s) MAX_HEADLINES).
Proof.
  intros Hrun.
  destruct (@run_inv schedule initial_system s Hrun initial_system_inv)
    as [Hh Hc Hp Hr Hresp].
  split; [exact Hresp|].
  intros Hidle. rewrite Hidle in Hc. cbn [pending] in Hc.
  unfold api_headlines, get_update_counter. cbn [version items].
  split; [lia | exact Hh].
Qed.

Lemma snapshot_version_never_ahead_witness :
  exists s,
    run [Append (lit "x"); ReadVersion 0; Bump; Append (lit "y"); ReadItems 0; Bump;
         ReadVersion 1; ReadItems 1] initial_system = Some s
    /\ Forall response_ok (responses s)
    /\ (producer s = Idle ->
        version (api_headlines (shared s)) = Z.of_nat (appends s)
        /\ length (items (api_headlines (shared s)))
           = Nat.min (appends s) MAX_HEADLINES).
Proof.
  eexists. split; [reflexivity|].
  apply (@snapshot_version_never_ahead
           [Append (lit "x"); ReadVersion 0; Bump; Append (lit "y"); ReadItems 0; Bump;
            ReadVersion 1; ReadItems 1]).
  reflexivity.
Defined.

(** ** Further properties *)

(** X1. Eviction: after any sequence of appends the history is the most
    recent [MAX_HEADLINES] headlines, most recent first; so after 101
    appends the oldest headline is gone and the 100 most recent are
    there. *)
Theorem eviction_most_recent_first (hs : list str) :
  headlines (append_all hs empty_store) = firstn MAX_HEADLINES (rev hs).
Proof. exact (proj1 (append_all_state hs)). Qed.

(** X2. The fallback headline has five fixed words and the words of the
    author and of the message, whatever their number; no word limit
    applies to it. *)
Theorem fallback_word_count (cfg : config) (rt : runtime) (u m : str) (b : backend)
    (e : exn) :
  unicode_laws rt ->
  primary_path cfg rt u m b = Raise e ->
  exists h, snd (generate_headline_local_llm cfg rt u m b) = Ok h
            /\ length (split h) = 5 + length (split u) + length (split m).
Proof.
  intros laws He. rewrite (generate_fallback _ _ _ _ _ He). cbn [snd].
  destruct (template_fallback_word_count laws u m) as [h [Hh Hlen]].
  rewrite template_fallback_option1 in Hh. exists h. split; [exact Hh | exact Hlen].
Qed.

Lemma fallback_word_count_witness :
  unicode_laws ascii_runtime
  /\ primary_path default_config ascii_runtime (lit "alice")
       (lit "a b c d e f g h i j") (Response 503 None) = Raise (HTTPError 503)
  /\ exists h,
       snd (generate_headline_local_llm default_config ascii_runtime (lit "alice")
              (lit "a b c d e f g h i j") (Response 503 None)) = Ok h
       /\ length (split h)
          = 5 + length (split (lit "alice")) + length (split (lit "a b c d e f g h i j")).
Proof.
  split; [exact ascii_laws|]. split; [reflexivity|].
  exact (@fallback_word_count default_config ascii_runtime (lit "alice")
           (lit "a b c d e f g h i j") (Response 503 None) (HTTPError 503)
           ascii_laws eq_refl).
Defined.

(** The number of words depends on where the whitespace is, only. *)
Lemma length_split_cons c r :
  length (split (c :: r)) =
  if isspace c then length (split r)
  else if at_word r then length (split r) else S (length (split r)).
Proof.
  cbn [split]. destruct (isspace c); [reflexivity|].
  destruct (at_word r) eqn:Hat; [|reflexivity].
  apply at_word_split in Hat. destruct (split r); [congruence | reflexivity].
Qed.

Lemma length_split_skeleton x : forall y,
  List.map isspace x = List.map isspace y -> length (split x) = length (split y).
Proof.
  induction x as [|c r IH]; intros [|d q] H; try discriminate; [reflexivity|].
  cbn [List.map] in H. injection H as Hc Hr.
  rewrite !length_split_cons, Hc, (IH q Hr).
  replace (at_word q) with (at_word r); [reflexivity|].
  destruct r as [|c2 r2], q as [|d2 q2]; try discriminate; [reflexivity|].
  cbn [List.map] in Hr. injection Hr as Hc2 _. simpl. now rewrite Hc2.
Qed.

Lemma isspace_printable c : (33 <= c <= 126)%N -> isspace c = false.
Proof.
  intros H. unfold isspace, whitespace. cbn [existsb].
  rewrite !orb_false_iff. repeat split; try reflexivity; apply N.eqb_neq; lia.
Qed.

Lemma ascii_tolower_space a b :
  ascii_tolower a = ascii_tolower b -> isspace a = isspace b.
Proof.
  unfold ascii_tolower, ascii_isupper.
  destruct (N.leb_spec 65 a), (N.leb_spec a 90), (N.leb_spec 65 b), (N.leb_spec b 90);
    cbn [andb]; intros E;
    try (replace b with a by lia; reflexivity);
    rewrite (@isspace_printable a), (@isspace_printable b) by lia; reflexivity.
Qed.

Lemma startswith_folded_skeleton p : forall s,
  startswith (List.map ascii_tolower p) (List.map ascii_tolower s) = true ->
  List.map isspace (firstn (length p) s) = List.map isspace p.
Proof.
  induction p as [|a p IH]; intros s H; [reflexivity|].
  destruct s as [|c s]; [discriminate|].
  cbn [List.map startswith] in H. apply andb_true_iff in H. destruct H as [Hc Hs].
  apply N.eqb_eq in Hc. cbn [length firstn List.map].
  now rewrite (@ascii_tolower_space c a Hc), (IH s Hs).
Qed.

(** Replacing the occurrences of a string by the string itself, whatever
    their case, moves no whitespace. *)
Lemma replace_folded_skeleton p s : forall skip,
  List.map isspace (replace_folded ascii_tolower p p skip s)
  = List.map isspace (skipn skip s).
Proof.
  induction s as [|c s IH]; intros skip.
  - rewrite skipn_nil. now destruct p.
  - destruct skip as [|n]; [|apply IH].
    cbn [replace_folded skipn]. destruct p as [|a p'].
    + cbn [app List.map]. f_equal. apply IH.
    + destruct (startswith (List.map ascii_tolower (a :: p'))
                  (List.map ascii_tolower (c :: s))) eqn:E.
      * rewrite map_app, IH.
        rewrite <- (@startswith_folded_skeleton (a :: p') (c :: s) E).
        cbn [length firstn List.map app]. f_equal.
        rewrite <- map_app. now rewrite firstn_skipn.
      * cbn [List.map]. f_equal. apply IH.
Qed.

Lemma ascii_substitution_words u x y :
  ascii_re_sub_ignorecase u u x = Ok y -> length (split y) = length (split x).
Proof.
  unfold ascii_re_sub_ignorecase. destruct (existsb (N.eqb 92%N) u); [discriminate|].
  intros H. injection H as <-. apply length_split_skeleton.
  apply (replace_folded_skeleton u x 0).
Qed.

Lemma Forall_firstn_words n ws : Forall is_word ws -> Forall is_word (firstn n ws).
Proof.
  revert n. induction ws as [|w ws IH]; intros n H.
  - now rewrite firstn_nil.
  - destruct n as [|n]; [constructor|].
    inversion H; subst. cbn [firstn]. constructor; [assumption | now apply IH].
Qed.

(** The truncation of the primary path leaves at most the limit. *)
Lemma enforce_limit_words limit headline :
  (0 <= limit)%Z ->
  (Z.of_nat (length (split
     (if (limit <? Z.of_nat (length (split headline)))%Z
      then join [SPACE] (slice_to limit (split headline))
      else headline))) <= limit)%Z.
Proof.
  intros Hlimit.
  destruct (Z.ltb_spec limit (Z.of_nat (length (split headline)))) as [Hlt | Hge];
    [|exact Hge].
  unfold slice_to. replace (0 <=? limit)%Z with true by (symmetry; now apply Z.leb_le).
  rewrite split_join by apply Forall_firstn_words, split_words.
  rewrite length_firstn. lia.
Qed.

Section WordLimit.
Variable rt : runtime.
Hypothesis laws : unicode_laws rt.
Variable u : str.
Hypothesis substitution_words :
  forall x y, re_sub_ignorecase rt u u x = Ok y -> length (split y) <= length (split x).

(** The steps behind the truncation add no word. *)
Lemma finish_words x h :
  (headline <-
     (if contains (str_lower rt u) (str_lower rt x)
      then re_sub_ignorecase rt u u x
      else Ok x) ;;
   Ok (smart_title rt (re_sub WS_RE [SPACE] headline))) = Ok h ->
  length (split h) <= length (split x).
Proof.
  intros H.
  assert (Hy : exists y, length (split y) <= length (split x)
                         /\ h = smart_title rt (re_sub WS_RE [SPACE] y)).
  { destruct (contains (str_lower rt u) (str_lower rt x)).
    - destruct (re_sub_ignorecase rt u u x) as [y|] eqn:E; [|discriminate].
      cbn [bind] in H. injection H as <-. exists y. split; [|reflexivity].
      now apply substitution_words.
    - cbn [bind] in H. injection H as <-. exists x. split; [lia | reflexivity]. }
  destruct Hy as [y [Hle ->]].
  now rewrite (split_smart_title laws), length_map, split_collapse.
Qed.

End WordLimit.

(** X3. The primary path keeps the word limit: when the limit is not
    negative and replacing the case variants of the author by the author
    adds no word, a headline generated by the backend has at most
    [HEADLINE_MAX_WORDS] words. *)
Theorem primary_path_word_limit (cfg : config) (rt : runtime) (u m : str)
    (b : backend) (h : str) :
  unicode_laws rt ->
  (0 <= HEADLINE_MAX_WORDS cfg)%Z ->
  (forall x y, re_sub_ignorecase rt u u x = Ok y ->
               length (split y) <= length (split x)) ->
  primary_path cfg rt u m b = Ok h ->
  (Z.of_nat (length (split h)) <= HEADLINE_MAX_WORDS cfg)%Z.
Proof.
  intros laws Hlimit Hsub H. unfold primary_path in H.
  destruct (post b) as [resp|]; cbn [bind] in H; [|discriminate].
  destruct (raise_for_status (fst resp)); cbn [bind] in H; [|discriminate].
  destruct (resp_json (snd resp)) as [v|]; cbn [bind] in H; [|discriminate].
  destruct (py_get v (lit "response") (PyStr [])) as [field|]; cbn [bind] in H;
    [|discriminate].
  destruct (py_strip field) as [text|]; cbn [bind] in H; [|discriminate].
  destruct text as [|c t]; [discriminate|].
  cbv zeta in H. apply (@finish_words rt laws u Hsub) in H.
  pose proof (enforce_limit_words
                (strip_with (N.eqb SQUOTE)
                   (strip_with (N.eqb DQUOTE) (strip (first_line (c :: t)))))
                Hlimit) as Hcap.
  lia.
Qed.

Lemma primary_path_word_limit_witness :
  unicode_laws ascii_runtime
  /\ (0 <= HEADLINE_MAX_WORDS {| HEADLINE_MAX_WORDS := 3; MESSAGE_RATE := 1 |})%Z
  /\ primary_path {| HEADLINE_MAX_WORDS := 3; MESSAGE_RATE := 1 |} ascii_runtime
       (lit "alice") (lit "hi")
       (Response 200 (Some (PyDict [(lit "response",
          PyStr (lit "breaking news: ALICE wins big" ++ [NEWLINE] ++ lit "note"))])))
     = Ok (lit "Breaking News: Alice")
  /\ (Z.of_nat (length (split (lit "Breaking News: Alice")))
      <= HEADLINE_MAX_WORDS {| HEADLINE_MAX_WORDS := 3; MESSAGE_RATE := 1 |})%Z.
Proof.
  assert (Hlimit : (0 <= HEADLINE_MAX_WORDS {| HEADLINE_MAX_WORDS := 3; MESSAGE_RATE := 1 |})%Z)
    by (cbn; lia).
  assert (Hrun : primary_path {| HEADLINE_MAX_WORDS := 3; MESSAGE_RATE := 1 |}
            ascii_runtime (lit "alice") (lit "hi")
            (Response 200 (Some (PyDict [(lit "response",
               PyStr (lit "breaking news: ALICE wins big" ++ [NEWLINE] ++ lit "note"))])))
          = Ok (lit "Breaking News: Alice")) by (vm_compute; reflexivity).
  split; [exact ascii_laws|]. split; [exact Hlimit|]. split; [exact Hrun|].
  refine (@primary_path_word_limit _ ascii_runtime (lit "alice") (lit "hi") _ _
            ascii_laws Hlimit _ Hrun).
  intros x y Hxy. cbn [re_sub_ignorecase ascii_runtime] in Hxy.
  rewrite (@ascii_substitution_words (lit "alice") x y Hxy). apply le_n.
Defined.

(** ** The listener over a sequence of events *)

Section EventProperties.
Variable cfg : config.
Variable rt : runtime.

Lemma event_message_step e w :
  event_message cfg rt (ev_message e) (ev_draw e) (ev_backend e) w =
  Ok (if accepted cfg e
      then {| st := append (headline_of cfg rt e) (st w);
              transformer_calls := transformer_calls w ++ [transformer_input e];
              stdout := stdout w
                        ++ fst (generate_headline_local_llm cfg rt
                                  (fst (transformer_input e))
                                  (snd (transformer_input e)) (ev_backend e))
                        ++ [LogHeadline (headline_of cfg rt e)] |}
      else w).
Proof.
  unfold accepted.
  destruct (clean_message (message_raw (ev_message e))) as [|c r] eqn:Ec.
  - cbn [nonempty andb]. now apply event_message_empty.
  - cbn [nonempty andb].
    destruct (Qle_bool (ev_draw e) (MESSAGE_RATE cfg)) eqn:Eq.
    + assert (Hne : clean_message (message_raw (ev_message e)) <> [])
        by (rewrite Ec; discriminate).
      destruct (@event_message_accepted cfg rt (ev_message e) (ev_draw e)
                  (ev_backend e) w Hne Eq) as [h [Hh ->]].
      unfold headline_of, transformer_input. cbn [fst snd].
      rewrite Hh. now rewrite Ec.
    + now apply event_message_rejected.
Qed.

Lemma run_events_snoc evs e w :
  run_events cfg rt (evs ++ [e]) w =
  (w' <- run_events cfg rt evs w ;;
   event_message cfg rt (ev_message e) (ev_draw e) (ev_backend e) w').
Proof.
  revert w. induction evs as [|x evs IH]; intros w.
  - cbn [app run_events bind]. rewrite event_message_step. reflexivity.
  - cbn [app run_events]. rewrite event_message_step. cbn [bind]. apply IH.
Qed.

Lemma run_events_state evs :
  exists w,
    run_events cfg rt evs initial_world = Ok w
    /\ st w = append_all (List.map (headline_of cfg rt) (filter (accepted cfg) evs))
                empty_store
    /\ transformer_calls w = List.map transformer_input (filter (accepted cfg) evs).
Proof.
  induction evs as [|e evs [w [Hrun [Hst Hcalls]]]] using rev_ind.
  - exists initial_world. repeat split.
  - rewrite run_events_snoc, Hrun. cbn [bind]. rewrite event_message_step.
    eexists. split; [reflexivity|].
    rewrite filter_app. cbn [filter].
    destruct (accepted cfg e); cbn [st transformer_calls].
    + rewrite !map_app. cbn [List.map]. rewrite append_all_snoc, Hst, Hcalls.
      now split.
    + rewrite !app_nil_r. now split.
Qed.

End EventProperties.

(** X4. After any sequence of chat events, starting from the empty store,
    the listener has not raised; the version counts the accepted events
    (those whose cleaned text is not empty and whose draw is not above the
    rate); the Transformer was called for exactly those, in order; the
    history is the most recent [MAX_HEADLINES] of their headlines, most
    recent first; and a snapshot taken then has that version and as many
    items as the version tells, up to the bound. *)
Theorem listener_counts_accepted_events (cfg : config) (rt : runtime)
    (evs : list event) :
  exists w,
    run_events cfg rt evs initial_world = Ok w
    /\ _update_counter (st w) = Z.of_nat (length (filter (accepted cfg) evs))
    /\ transformer_calls w = List.map transformer_input (filter (accepted cfg) evs)
    /\ headlines (st w)
       = firstn MAX_HEADLINES
           (rev (List.map (headline_of cfg rt) (filter (accepted cfg) evs)))
    /\ version (api_headlines (st w)) = Z.of_nat (length (filter (accepted cfg) evs))
    /\ length (items (api_headlines (st w)))
       = Nat.min (length (filter (accepted cfg) evs)) MAX_HEADLINES.
Proof.
  destruct (run_events_state cfg rt evs) as [w [Hrun [Hst Hcalls]]].
  destruct (append_all_state
              (List.map (headline_of cfg rt) (filter (accepted cfg) evs)))
    as [Hh Hc].
  rewrite <- Hst in Hh, Hc. rewrite length_map in Hc.
  exists w. repeat split; try assumption.
  unfold api_headlines. cbn [items]. rewrite Hh.
  now rewrite length_firstn, length_rev, length_map, Nat.min_comm.
Qed.

(** ** The form of a headline *)

Lemma in_firstn {A} (x : A) n l : In x (firstn n l) -> In x l.
Proof.
  intros H. rewrite <- (firstn_skipn n l). apply in_or_app. now left.
Qed.

Lemma join_words_chars ws :
  Forall is_word ws ->
  forall c, In c (join [SPACE] ws) -> c = SPACE \/ isspace c = false.
Proof.
  induction 1 as [|w ws [_ Hw] Hws IH]; intros c Hin; [destruct Hin|].
  assert (Hword : In c w -> isspace c = false).
  { intros Hc. apply (proj1 (forallb_forall _ _) Hw) in Hc.
    unfold nonspace in Hc. now apply negb_true_iff in Hc. }
  destruct ws as [|w2 ws'].
  - right. now apply Hword.
  - rewrite join_cons in Hin by discriminate.
    apply in_app_or in Hin. destruct Hin as [Hin | Hin]; [right; now apply Hword|].
    cbn [app] in Hin. destruct Hin as [<- | Hin]; [now left | now apply IH].
Qed.

Lemma single_spaced_chars s c :
  single_spaced s -> In c s -> isspace c = true -> c = SPACE.
Proof.
  intros Hs Hin Hc. rewrite Hs in Hin.
  destruct (join_words_chars (split_words s) c Hin) as [-> | Hn]; [reflexivity|].
  congruence.
Qed.

Section HeadlineForm.
Variable cfg : config.
Variable rt : runtime.
Hypothesis laws : unicode_laws rt.

Lemma smart_title_single_spaced s : single_spaced (smart_title rt s).
Proof.
  unfold single_spaced. rewrite (split_smart_title laws). reflexivity.
Qed.

Lemma primary_path_title u m b h :
  primary_path cfg rt u m b = Ok h -> exists x, h = smart_title rt x.
Proof.
  unfold primary_path. intros H.
  destruct (post b) as [resp|]; cbn [bind] in H; [|discriminate].
  destruct (raise_for_status (fst resp)); cbn [bind] in H; [|discriminate].
  destruct (resp_json (snd resp)) as [v|]; cbn [bind] in H; [|discriminate].
  destruct (py_get v (lit "response") (PyStr [])) as [field|]; cbn [bind] in H;
    [|discriminate].
  destruct (py_strip field) as [text|]; cbn [bind] in H; [|discriminate].
  destruct text as [|c t]; [discriminate|].
  cbv zeta in H.
  match type of H with
  | bind ?m _ = _ => destruct m as [y|]; cbn [bind] in H; [|discriminate]
  end.
  injection H as <-. eexists; reflexivity.
Qed.

Lemma generate_title u m b h :
  snd (generate_headline_local_llm cfg rt u m b) = Ok h ->
  exists x, h = smart_title rt x.
Proof.
  unfold generate_headline_local_llm.
  destruct (primary_path cfg rt u m b) as [h'|e] eqn:E; cbn [snd]; intros H.
  - injection H as <-. exact (@primary_path_title u m b h' E).
  - rewrite template_fallback_option1 in H. injection H as <-.
    eexists; reflexivity.
Qed.

Lemma title_form x :
  smart_title rt (smart_title rt x) = smart_title rt x
  /\ single_spaced (smart_title rt x)
  /\ ~ In NEWLINE (smart_title rt x).
Proof.
  split; [apply (smart_title_idem laws)|]. split; [apply smart_title_single_spaced|].
  intros Hin.
  pose proof (@single_spaced_chars _ _ (smart_title_single_spaced x) Hin eq_refl).
  discriminate.
Qed.

Lemma headline_of_title e : exists x, headline_of cfg rt e = smart_title rt x.
Proof.
  unfold headline_of.
  destruct (generate_total cfg rt (fst (transformer_input e))
              (snd (transformer_input e)) (ev_backend e)) as [h Hh].
  rewrite Hh. exact (@generate_title _ _ _ h Hh).
Qed.

End HeadlineForm.

(** X5. The form of a headline: whatever the backend does, the headline
    the Transformer returns is left unchanged by [smart_title], has its
    words separated by single spaces with no whitespace at its ends, and
    holds no newline; and so has every headline in the history after any
    sequence of chat events. *)
Theorem headlines_title_cased_single_spaced (cfg : config) (rt : runtime)
    (u m : str) (b : backend) (h : str) (evs : list event) :
  unicode_laws rt ->
  snd (generate_headline_local_llm cfg rt u m b) = Ok h ->
  (smart_title rt h = h /\ single_spaced h /\ ~ In NEWLINE h)
  /\ exists w,
       run_events cfg rt evs initial_world = Ok w
       /\ Forall (fun x => smart_title rt x = x /\ single_spaced x /\ ~ In NEWLINE x)
                 (headlines (st w)).
Proof.
  intros laws Hh. split.
  - destruct (@generate_title cfg rt u m b h Hh) as [x ->]. now apply title_form.
  - destruct (run_events_state cfg rt evs) as [w [Hrun [Hst _]]].
    exists w. split; [exact Hrun|].
    rewrite Hst, (proj1 (append_all_state _)).
    apply Forall_forall. intros x Hx.
    apply in_firstn in Hx. apply in_rev in Hx. apply in_map_iff in Hx.
    destruct Hx as [e [<- _]].
    destruct (@headline_of_title cfg rt e) as [y ->]. now apply title_form.
Qed.

(** ** The form of a cleaned message *)

Lemma join_nonempty ws : Forall is_word ws -> ws <> [] -> join [SPACE] ws <> [].
Proof.
  intros Hw Hne. apply at_word_nonempty. now apply join_bounds.
Qed.

Lemma word_snoc w e :
  forallb nonspace w = true -> nonspace e = true -> is_word (w ++ [e]).
Proof.
  intros Hw He. split.
  - intros H. now apply app_eq_nil in H.
  - rewrite forallb_app, Hw. simpl. now rewrite He.
Qed.

Lemma forallb_firstn (f : char -> bool) n s :
  forallb f s = true -> forallb f (firstn n s) = true.
Proof.
  revert s. induction n as [|n IH]; intros s H; [reflexivity|].
  destruct s as [|c s]; [reflexivity|].
  simpl in H. apply andb_true_iff in H. simpl. destruct H as [-> H]. now apply IH.
Qed.

Lemma word_single_spaced w : is_word w -> single_spaced w.
Proof. intros H. unfold single_spaced. now rewrite (split_word H). Qed.

(** A prefix of single-spaced words, closed by a character that is no
    whitespace, is single-spaced. *)
Lemma single_spaced_prefix e ws :
  nonspace e = true -> Forall is_word ws ->
  forall n, single_spaced (firstn n (join [SPACE] ws) ++ [e]).
Proof.
  intros He. induction 1 as [|w ws [Hne Hw] Hws IH]; intros n.
  - cbn [join]. rewrite firstn_nil.
    exact (word_single_spaced (@word_snoc [] e eq_refl He)).
  - destruct ws as [|w2 ws'].
    + cbn [join].
      exact (word_single_spaced (@word_snoc _ e (@forallb_firstn nonspace n w Hw) He)).
    + rewrite join_cons by discriminate. rewrite firstn_app.
      destruct (Nat.leb_spec n (length w)) as [Hle | Hgt].
      * replace (n - length w) with 0 by lia. cbn [firstn]. rewrite app_nil_r.
        exact (word_single_spaced (@word_snoc _ e (@forallb_firstn nonspace n w Hw) He)).
      * rewrite firstn_all2 by lia.
        destruct (n - length w) as [|k] eqn:Ek; [lia|].
        cbn [app firstn]. rewrite <- app_assoc. cbn [app].
        specialize (IH k). unfold single_spaced in IH |- *.
        set (x := firstn k (join [SPACE] (w2 :: ws')) ++ [e]) in *.
        rewrite split_word_app by (now split || reflexivity).
        rewrite split_space by reflexivity.
        assert (Hx : split x <> []).
        { intros E. rewrite E in IH. cbn [join] in IH.
          unfold x in IH. now apply app_eq_nil in IH. }
        rewrite join_cons by exact Hx. cbn [app]. now rewrite <- IH.
Qed.

Lemma cleaned_form_single_spaced msg : single_spaced (cleaned_form msg).
Proof. unfold single_spaced. now rewrite split_cleaned_form. Qed.

Lemma single_spaced_trimmed s : single_spaced s -> trimmed s.
Proof.
  intros Hs. unfold trimmed. rewrite Hs.
  destruct (split s) as [|w ws] eqn:E; [now left|].
  right. apply join_bounds; [|discriminate]. rewrite <- E. apply split_words.
Qed.

(** X6. The form of a cleaned message: [clean_message] returns at most
    301 characters, its words are separated by single spaces, it has no
    whitespace at its ends, and a space is the only whitespace in it. *)
Theorem clean_message_form (msg : str) :
  length (clean_message msg) <= 301
  /\ single_spaced (clean_message msg)
  /\ trimmed (clean_message msg)
  /\ (forall c, In c (clean_message msg) -> isspace c = true -> c = SPACE).
Proof.
  assert (Hs : single_spaced (clean_message msg)).
  { rewrite clean_message_sanitize_http.
    unfold sanitize_http, sanitize_with, truncate. fold (cleaned_form msg).
    destruct (300 <? length (cleaned_form msg)).
    - unfold cleaned_form, normalize.
      apply single_spaced_prefix; [reflexivity|]. apply cut_words, split_words.
    - apply cleaned_form_single_spaced. }
  split; [|split; [exact Hs|split; [now apply single_spaced_trimmed|]]].
  - rewrite clean_message_sanitize_http.
    unfold sanitize_http, sanitize_with, truncate.
    destruct (Nat.ltb_spec 300 (length (normalize (url_at_schemes HTTP_SCHEMES) msg))).
    + rewrite length_app, length_firstn. cbn [length]. lia.
    + lia.
  - intros c Hin Hc. exact (@single_spaced_chars _ _ Hs Hin Hc).
Qed.

(** ** Cleaning twice *)

Lemma cut_url_fixed (f : str -> bool) t :
  (forall i, f (skipn i t) = false) -> cut_url f t = t.
Proof.
  induction t as [|c t IH]; intros H; [reflexivity|].
  cbn [cut_url]. pose proof (H 0) as H0. cbn [skipn] in H0. rewrite H0.
  f_equal. apply IH. intros i. exact (H (S i)).
Qed.

Lemma cleaned_form_idem msg : cleaned_form (cleaned_form msg) = cleaned_form msg.
Proof.
  unfold cleaned_form at 1. unfold normalize. rewrite split_cleaned_form.
  set (ws := filter nonempty
               (List.map (cut_url (url_at_schemes HTTP_SCHEMES)) (split msg))).
  assert (Hmap : List.map (cut_url (url_at_schemes HTTP_SCHEMES)) ws = ws).
  { rewrite <- (map_id ws) at 2. apply map_ext_in. intros w Hw.
    unfold ws in Hw. apply filter_In in Hw. destruct Hw as [Hw _].
    apply in_map_iff in Hw. destruct Hw as [t [<- _]].
    apply cut_url_fixed. intros i. apply cut_url_free. }
  rewrite Hmap.
  assert (Hfil : filter nonempty ws = ws).
  { unfold ws. clear. induction (List.map (cut_url (url_at_schemes HTTP_SCHEMES)) (split msg))
      as [|x l IH]; [reflexivity|].
    cbn [filter]. destruct (nonempty x) eqn:E; [|exact IH].
    cbn [filter]. now rewrite E, IH. }
  rewrite Hfil. unfold cleaned_form, normalize. reflexivity.
Qed.

(** X7. Cleaning a cleaned message again changes nothing, as long as the
    first cleaning did not truncate. *)
Theorem clean_message_idempotent (msg : str) :
  length (cleaned_form msg) <= 300 ->
  clean_message (clean_message msg) = clean_message msg.
Proof.
  intros Hlen.
  assert (H1 : clean_message msg = cleaned_form msg).
  { rewrite clean_message_sanitize_http.
    unfold sanitize_http, sanitize_with, truncate. fold (cleaned_form msg).
    apply Nat.ltb_ge in Hlen. now rewrite Hlen. }
  rewrite H1. rewrite clean_message_sanitize_http.
  unfold sanitize_http, sanitize_with, truncate.
  fold (cleaned_form (cleaned_form msg)). rewrite cleaned_form_idem.
  apply Nat.ltb_ge in Hlen. now rewrite Hlen.
Qed.

(** ** Messages that clean to nothing *)

Lemma cut_url_nil_iff (f : str -> bool) t :
  t <> [] -> (cut_url f t = [] <-> f t = true).
Proof.
  destruct t as [|c t]; [congruence|]. intros _. cbn [cut_url].
  destruct (f (c :: t)); split; congruence.
Qed.

Lemma filter_nonempty_nil l :
  filter nonempty l = [] <-> Forall (fun x : str => x = []) l.
Proof.
  induction l as [|x l IH]; [split; [constructor | reflexivity]|].
  cbn [filter]. destruct x as [|c x]; cbn [nonempty].
  - rewrite IH. split; [now constructor | now inversion 1].
  - split; [discriminate | inversion 1; discriminate].
Qed.

(** X8. A message is dropped as empty exactly when each of its words
    starts with an [http://] or [https://] URL, a message without words
    included: messages made of links never become headlines. *)
Theorem clean_message_empty_iff (msg : str) :
  clean_message msg = [] <->
  Forall (fun w => url_at_schemes HTTP_SCHEMES w = true) (split msg).
Proof.
  rewrite clean_message_sanitize_http.
  unfold sanitize_http, sanitize_with, truncate. fold (cleaned_form msg).
  assert (Hform : cleaned_form msg = [] <->
                  Forall (fun w => url_at_schemes HTTP_SCHEMES w = true) (split msg)).
  { unfold cleaned_form, normalize.
    pose proof (cut_words (url_at_schemes HTTP_SCHEMES) (split_words msg)) as Hw.
    split.
    - intros E.
      assert (Hnil : filter nonempty
                       (List.map (cut_url (url_at_schemes HTTP_SCHEMES)) (split msg)) = []).
      { destruct (filter nonempty _) eqn:F; [reflexivity|].
        exfalso. apply (join_nonempty Hw); [discriminate | exact E]. }
      apply filter_nonempty_nil in Hnil.
      apply Forall_forall. intros w Hin.
      apply cut_url_nil_iff.
      + exact (proj1 (proj1 (Forall_forall _ _) (split_words msg) w Hin)).
      + apply (proj1 (Forall_forall _ _) Hnil). now apply in_map.
    - intros Hall.
      assert (Hnil : filter nonempty
                       (List.map (cut_url (url_at_schemes HTTP_SCHEMES)) (split msg)) = []).
      { apply filter_nonempty_nil. apply Forall_forall. intros x Hx.
        apply in_map_iff in Hx. destruct Hx as [w [<- Hin]].
        apply cut_url_nil_iff.
        - exact (proj1 (proj1 (Forall_forall _ _) (split_words msg) w Hin)).
        - exact (proj1 (Forall_forall _ _) Hall w Hin). }
      now rewrite Hnil. }
  rewrite <- Hform.
  destruct (Nat.ltb_spec 300 (length (cleaned_form msg))) as [Hlt | Hge].
  - split; intros E.
    + now apply app_eq_nil in E.
    + rewrite E in Hlt. simpl in Hlt. lia.
  - reflexivity.
Qed.

(** ** A response of quotes *)

Lemma strip_word w : is_word w -> strip w = w.
Proof.
  intros Hw.
  assert (Hb : at_word w = true /\ at_word (rev w) = true).
  { apply (@join_bounds [w]); [now constructor | discriminate]. }
  pose proof (@strip_core [] w [] eq_refl eq_refl (or_intror Hb)) as H.
  cbn [app] in H. now rewrite app_nil_r in H.
Qed.

Lemma strip_with_all (f : char -> bool) q : forallb f q = true -> strip_with f q = [].
Proof.
  intros H. unfold strip_with. rewrite <- (app_nil_r q).
  now rewrite dropwhile_all.
Qed.

Lemma takewhile_forall (f : char -> bool) q : forallb f q = true -> takewhile f q = q.
Proof.
  induction q as [|c q IH]; [reflexivity|]. simpl. intros H.
  apply andb_true_iff in H. destruct H as [-> H]. now rewrite IH.
Qed.

Lemma forallb_impl (f g : char -> bool) q :
  (forall c, f c = true -> g c = true) -> forallb f q = true -> forallb g q = true.
Proof.
  intros Himp H. apply forallb_forall. intros c Hc.
  apply Himp. exact (proj1 (forallb_forall f q) H c Hc).
Qed.

(** X9. The emptiness check of the primary path comes before the quotes
    are stripped: a successful response whose text is nothing but double
    quotes is not taken as a failure, and the headline returned is the
    empty string, with no fallback. *)
Theorem quote_only_response_gives_empty_headline (cfg : config) (rt : runtime)
    (u m : str) (status : Z) (d : list (str * pyval)) (q : str) :
  str_lower rt [] = [] ->
  str_lower rt u <> [] ->
  (status < 400 \/ 600 <= status)%Z ->
  dict_lookup (lit "response") d = Some (PyStr q) ->
  q <> [] ->
  forallb (N.eqb DQUOTE) q = true ->
  generate_headline_local_llm cfg rt u m (Response status (Some (PyDict d)))
  = ([], Ok []).
Proof.
  intros Hlow Hu Hstatus Hd Hne Hq.
  assert (Hword : is_word q).
  { split; [exact Hne|]. apply (forallb_impl (N.eqb DQUOTE)); [|exact Hq].
    intros c Hc. apply N.eqb_eq in Hc. now subst c. }
  assert (Hline : first_line q = q).
  { apply takewhile_forall. apply (forallb_impl (N.eqb DQUOTE)); [|exact Hq].
    intros c Hc. apply N.eqb_eq in Hc. now subst c. }
  unfold generate_headline_local_llm, primary_path.
  cbn [post bind fst snd]. unfold raise_for_status.
  replace ((400 <=? status)%Z && (status <? 600)%Z) with false.
  2:{ symmetry. apply andb_false_iff.
      destruct Hstatus; [left; apply Z.leb_gt | right; apply Z.ltb_ge]; lia. }
  cbn [bind resp_json py_get]. rewrite Hd. cbn [bind py_strip].
  rewrite (strip_word Hword).
  destruct q as [|c q'] eqn:Eq; [congruence|]. rewrite <- Eq in *.
  rewrite Hline, (strip_word Hword), (strip_with_all _ _ Hq).
  change (strip_with (N.eqb SQUOTE) []) with (@nil char).
  change (split []) with (@nil str). cbn [length Z.of_nat].
  assert (Hcut : (if (HEADLINE_MAX_WORDS cfg <? 0)%Z
                  then join [SPACE] (slice_to (HEADLINE_MAX_WORDS cfg) (@nil str))
                  else []) = []).
  { destruct (HEADLINE_MAX_WORDS cfg <? 0)%Z; [|reflexivity].
    unfold slice_to. destruct (0 <=? HEADLINE_MAX_WORDS cfg)%Z;
      now rewrite firstn_nil. }
  rewrite Hcut, Hlow.
  assert (Hin : contains (str_lower rt u) [] = false).
  { destruct (str_lower rt u); [congruence | reflexivity]. }
  rewrite Hin. reflexivity.
Qed.

(** ** The prompt *)

Example build_prompt_example :
  build_prompt default_config (lit "english") (lit "a{b}") (lit "m}{")
  = Ok (prompt_text default_config (lit "english") (lit "a{b}") (lit "m}{"))
  /\ length (prompt_text default_config (lit "english") (lit "a{b}") (lit "m}{")) = 388.
Proof. split; vm_compute; reflexivity. Qed.

Section FormatProperties.
Variable kwargs : list (str * str).

(** Text without braces is copied. *)
Lemma format_text a rest :
  forallb plain a = true ->
  format_from kwargs InText (a ++ rest)
  = (r <- format_from kwargs InText rest ;; Ok (a ++ r)).
Proof.
  induction a as [|c a IH]; intros H.
  - cbn [app]. now destruct (format_from kwargs InText rest).
  - simpl in H. apply andb_true_iff in H. destruct H as [Hc Ha].
    unfold plain in Hc. apply andb_true_iff in Hc. destruct Hc as [Hl Hr].
    apply negb_true_iff in Hl, Hr.
    cbn [app format_from]. rewrite Hl, Hr, (IH Ha).
    now destruct (format_from kwargs InText rest).
Qed.

Lemma format_field_name acc name rest :
  forallb field_char name = true ->
  format_from kwargs (InField acc) (name ++ RBRACE :: rest)
  = match kw_lookup (acc ++ name) kwargs with
    | Some v => r <- format_from kwargs InText rest ;; Ok (v ++ r)
    | None => Raise OtherException
    end.
Proof.
  revert acc. induction name as [|c name IH]; intros acc H.
  - cbn [app format_from]. rewrite app_nil_r.
    change (N.eqb RBRACE RBRACE) with true. reflexivity.
  - simpl in H. apply andb_true_iff in H. destruct H as [Hc Hn].
    unfold field_char in Hc. apply andb_true_iff in Hc. destruct Hc as [Hr Hs].
    apply negb_true_iff in Hr, Hs.
    cbn [app format_from]. rewrite Hr, Hs, (IH _ Hn).
    now rewrite <- app_assoc.
Qed.

(** A field is replaced by the value of its keyword argument, as it
    is. *)
Lemma format_field name v rest :
  forallb field_char name = true ->
  kw_lookup name kwargs = Some v ->
  format_from kwargs InText (LBRACE :: name ++ RBRACE :: rest)
  = (r <- format_from kwargs InText rest ;; Ok (v ++ r)).
Proof.
  intros Hn Hv.
  assert (H : format_from kwargs InText (LBRACE :: name ++ RBRACE :: rest)
              = format_from kwargs (InField []) (name ++ RBRACE :: rest)).
  { cbn [format_from]. change (N.eqb LBRACE LBRACE) with true. cbn iota.
    destruct name as [|c name]; [reflexivity|].
    cbn [app]. simpl in Hn. apply andb_true_iff in Hn. destruct Hn as [Hc _].
    unfold field_char, field_special in Hc.
    apply andb_true_iff in Hc. destruct Hc as [_ Hs]. apply negb_true_iff in Hs.
    rewrite !orb_false_iff in Hs. destruct Hs as [_ Hl]. now rewrite Hl. }
  rewrite H, format_field_name by exact Hn. cbn [app]. now rewrite Hv.
Qed.

End FormatProperties.

(** A decimal numeral holds no brace. *)
Lemma plain_uint d : forallb plain (lit (NilEmpty.string_of_uint d)) = true.
Proof. induction d; simpl; try assumption; reflexivity. Qed.

Lemma plain_str_of_int n : forallb plain (str_of_int n) = true.
Proof.
  unfold str_of_int.
  assert (H : forall d, forallb plain (lit (NilZero.string_of_uint d)) = true).
  { intros d. destruct d; try apply plain_uint. reflexivity. }
  destruct (Z.to_int n) as [d | d]; cbn [NilZero.string_of_int].
  - apply H.
  - change (lit (String "-" (NilZero.string_of_uint d)))
      with (45%N :: lit (NilZero.string_of_uint d)).
    cbn [forallb]. now rewrite H.
Qed.

Lemma build_prompt_text cfg LANGUAGE u m :
  build_prompt cfg LANGUAGE u m = Ok (prompt_text cfg LANGUAGE u m).
Proof.
  unfold build_prompt, format, PROMPT_TEMPLATE.
  set (K := [(lit "username", u); (lit "message", m);
             (lit "HEADLINE_MAX_WORDS", str_of_int (HEADLINE_MAX_WORDS cfg));
             (lit "LANGUAGE", LANGUAGE)]).
  set (D := str_of_int (HEADLINE_MAX_WORDS cfg)).
  change (format_from K InText
            (lit "Rewrite '"
             ++ LBRACE :: lit "message" ++ RBRACE ::
             (lit "' into playful, short, sensational but harmless tabloid headline"
              ++ [NEWLINE] ++ lit "- Max ")
             ++ D
             ++ (lit " words." ++ [NEWLINE] ++ PROMPT_RULES ++ lit "Username: ")
             ++ LBRACE :: lit "username" ++ RBRACE ::
             ([NEWLINE] ++ lit "Message: ")
             ++ LBRACE :: lit "message" ++ RBRACE ::
             ([NEWLINE] ++ lit "Always keep ")
             ++ LBRACE :: lit "username" ++ RBRACE ::
             (lit " intact!" ++ [NEWLINE] ++ lit "Final headline in ")
             ++ LBRACE :: lit "LANGUAGE" ++ RBRACE ::
             (lit " only." ++ [NEWLINE]) ++ [])
          = Ok (prompt_text cfg LANGUAGE u m)).
  rewrite format_text by reflexivity.
  rewrite (@format_field K (lit "message") m) by reflexivity.
  rewrite format_text by reflexivity.
  rewrite (@format_text K D) by apply plain_str_of_int.
  rewrite format_text by reflexivity.
  rewrite (@format_field K (lit "username") u) by reflexivity.
  rewrite format_text by reflexivity.
  rewrite (@format_field K (lit "message") m) by reflexivity.
  rewrite format_text by reflexivity.
  rewrite (@format_field K (lit "username") u) by reflexivity.
  rewrite format_text by reflexivity.
  rewrite (@format_field K (lit "LANGUAGE") LANGUAGE) by reflexivity.
  rewrite format_text by reflexivity.
  cbn [format_from bind]. reflexivity.
Qed.

(** X10. The prompt is built before the [try] block, where nothing
    would catch an exception, and building it cannot raise: for every
    word limit, language, username and message, [PROMPT_TEMPLATE.format]
    returns the template with the message, the username and the language
    put in as they are, braces in them included; so the function as a
    whole returns a headline whatever it is called with. *)
Theorem prompt_never_raises (cfg : config) (rt : runtime)
    (LANGUAGE username message : str) (b : backend) :
  build_prompt cfg LANGUAGE username message
  = Ok (prompt_text cfg LANGUAGE username message)
  /\ exists headline,
       generate_headline_local_llm_from_prompt cfg rt LANGUAGE username message b
       = Ok (prompt_text cfg LANGUAGE username message,
             (fst (generate_headline_local_llm cfg rt username message b),
              Ok headline)).
Proof.
  split; [apply build_prompt_text|].
  unfold generate_headline_local_llm_from_prompt.
  rewrite build_prompt_text. cbn [bind].
  destruct (generate_total cfg rt username message b) as [h Hh].
  exists h. rewrite <- Hh. now destruct (generate_headline_local_llm _ _ _ _ _).
Qed.

(** ** The items of a snapshot *)

Lemma run_snoc schedule a s :
  run (schedule ++ [a]) s =
  match run schedule s with
  | Some s' => step a s'
  | None => None
  end.
Proof.
  revert s. induction schedule as [|x schedule IH]; intros s.
  - cbn [app run]. now destruct (step a s).
  - cbn [app run]. destruct (step x s); [apply IH | reflexivity].
Qed.

Lemma appended_snoc schedule a :
  appended (schedule ++ [a]) =
  appended schedule ++ match a with Append h => [h] | _ => [] end.
Proof.
  induction schedule as [|x schedule IH].
  - destruct a; reflexivity.
  - destruct x; cbn [app appended]; rewrite IH; reflexivity.
Qed.

Lemma history_after_all hs : history_after (length hs) hs = firstn MAX_HEADLINES (rev hs).
Proof. unfold history_after. now rewrite firstn_all. Qed.

Lemma history_after_app n hs more :
  n <= length hs -> history_after n (hs ++ more) = history_after n hs.
Proof.
  intros H. unfold history_after. rewrite firstn_app.
  replace (n - length hs) with 0 by lia. cbn [firstn]. now rewrite app_nil_r.
Qed.

Lemma run_history schedule : forall s,
  run schedule initial_system = Some s ->
  appends s = length (appended schedule)
  /\ headlines (shared s) = history_after (appends s) (appended schedule)
  /\ Forall (fun r => appends_seen r <= length (appended schedule)
                      /\ items (body r)
                         = history_after (appends_seen r) (appended schedule))
            (responses s).
Proof.
  induction schedule as [|a schedule IH] using rev_ind; intros s Hrun.
  - injection Hrun as <-. repeat split. constructor.
  - rewrite run_snoc in Hrun.
    destruct (run schedule initial_system) as [s0|]; [|discriminate].
    destruct (IH s0 eq_refl) as [Hn [Hh Hr]]. rewrite appended_snoc.
    assert (Hkeep : forall more,
              Forall (fun r => appends_seen r <= length (appended schedule ++ more)
                               /\ items (body r)
                                  = history_after (appends_seen r)
                                      (appended schedule ++ more))
                     (responses s0)).
    { intros more. eapply Forall_impl; [|exact Hr].
      intros r [Hle Hi]. split; [rewrite length_app; lia|].
      now rewrite history_after_app. }
    destruct a as [h | | tid | tid]; cbn [step] in Hrun.
    + destruct (producer s0); [|discriminate]. injection Hrun as <-.
      cbn [appends shared responses store_appendleft headlines].
      split; [rewrite length_app; simpl; lia|]. split; [|apply Hkeep].
      rewrite Hh, Hn, history_after_all.
      replace (S (length (appended schedule)))
        with (length (appended schedule ++ [h])) by (rewrite length_app; simpl; lia).
      rewrite history_after_all, rev_app_distr. cbn [rev app].
      rewrite appendleft_firstn by (rewrite length_firstn; lia).
      apply firstn_cons_firstn. unfold MAX_HEADLINES. lia.
    + destruct (producer s0); [discriminate|]. injection Hrun as <-.
      cbn [appends shared responses mark_updated snd headlines].
      rewrite app_nil_r. now repeat split.
    + destruct (reader_lookup tid (readers s0)); [discriminate|].
      injection Hrun as <-. cbn [appends shared responses].
      rewrite app_nil_r. now repeat split.
    + destruct (reader_lookup tid (readers s0)); [|discriminate].
      injection Hrun as <-. cbn [appends shared responses].
      rewrite app_nil_r. split; [exact Hn|]. split; [exact Hh|].
      apply Forall_app. split; [exact Hr|]. constructor; [|constructor].
      cbn [body items appends_seen]. split; [lia | exact Hh].
Qed.

(** X11. The items of a snapshot are never torn: for every interleaving
    of appends and requests, the items of every response are the history
    as it stood after some number of the appends, namely the most recent
    [MAX_HEADLINES] of the headlines appended by then, most recent first;
    only the version can lag behind them. *)
Theorem snapshot_items_are_a_history (schedule : list action) (s : system) :
  run schedule initial_system = Some s ->
  Forall (fun r => appends_seen r <= length (appended schedule)
                   /\ items (body r)
                      = history_after (appends_seen r) (appended schedule))
         (responses s)
  /\ headlines (shared s) = firstn MAX_HEADLINES (rev (appended schedule)).
Proof.
  intros Hrun. destruct (run_history schedule Hrun) as [Hn [Hh Hr]].
  split; [exact Hr|]. now rewrite Hh, Hn, history_after_all.
Qed.

(** ** The first line of the response *)

Lemma takewhile_forallb (f : char -> bool) s : forallb f (takewhile f s) = true.
Proof.
  induction s as [|c s IH]; [reflexivity|]. simpl.
  destruct (f c) eqn:E; [simpl; now rewrite E | reflexivity].
Qed.

Lemma stops_at_word s : s <> [] -> stops isspace s -> at_word s = true.
Proof.
  destruct s as [|c s]; [congruence|]. simpl. intros _ H. now rewrite H.
Qed.

(** A string is whitespace, its stripped form, whitespace. *)
Lemma strip_decompose l :
  exists pre post,
    l = pre ++ strip l ++ post
    /\ forallb isspace pre = true /\ forallb isspace post = true
    /\ trimmed (strip l).
Proof.
  set (x := dropwhile isspace l).
  exists (takewhile isspace l), (rev (takewhile isspace (rev x))).
  assert (Hx : x = strip l ++ rev (takewhile isspace (rev x))).
  { unfold strip, strip_with. fold x. rewrite <- rev_app_distr.
    now rewrite takewhile_dropwhile, rev_involutive. }
  split; [|split; [|split]].
  - rewrite <- Hx. unfold x. now rewrite takewhile_dropwhile.
  - apply takewhile_forallb.
  - apply forallb_rev, takewhile_forallb.
  - destruct (strip l) as [|c core] eqn:E; [now left|]. right. split.
    + assert (Hs : stops isspace x) by apply dropwhile_stops_self.
      rewrite Hx in Hs. cbn [app stops] in Hs. simpl. now rewrite Hs.
    + rewrite <- E. unfold strip, strip_with. fold x. rewrite rev_involutive.
      apply stops_at_word; [|apply dropwhile_stops_self].
      intros Hnil. unfold strip, strip_with in E. fold x in E.
      rewrite Hnil in E. discriminate.
Qed.

Lemma strip_nonempty l : existsb nonspace l = true -> strip l <> [].
Proof.
  intros H E. destruct (strip_decompose l) as [pre [post [Hl [Hpre [Hpost _]]]]].
  rewrite E in Hl. cbn [app] in Hl.
  apply existsb_exists in H. destruct H as [c [Hin Hc]].
  assert (Hall : forallb isspace l = true)
    by (rewrite Hl, forallb_app, Hpre, Hpost; reflexivity).
  apply (proj1 (forallb_forall _ _) Hall) in Hin.
  unfold nonspace in Hc. now rewrite Hin in Hc.
Qed.

Lemma first_line_no_newline a : ~ In NEWLINE a -> first_line a = a.
Proof.
  intros H. apply takewhile_forall. apply forallb_forall. intros c Hc.
  apply negb_true_iff. apply N.eqb_neq. intros ->. now apply H.
Qed.

Lemma first_line_newline a rest :
  ~ In NEWLINE a -> first_line (a ++ NEWLINE :: rest) = a.
Proof.
  intros H. unfold first_line. rewrite takewhile_all.
  - cbn [takewhile]. change (N.eqb NEWLINE NEWLINE) with true. cbn [negb].
    apply app_nil_r.
  - apply forallb_forall. intros c Hc.
    apply negb_true_iff. apply N.eqb_neq. intros ->. now apply H.
Qed.

Lemma trimmed_app a mid b :
  a <> [] -> b <> [] -> trimmed a -> trimmed b -> trimmed (a ++ mid ++ b).
Proof.
  intros Ha Hb [-> | [Ha1 _]] [-> | [_ Hb2]]; try congruence.
  right. split.
  - now rewrite at_word_app.
  - rewrite !rev_app_distr, <- app_assoc. rewrite at_word_app; [exact Hb2|].
    intros E. apply Hb. rewrite <- (rev_involutive b), E. reflexivity.
Qed.

(** What the primary path keeps of the text of a response: its first
    line, stripped. *)
Lemma kept_line l rest :
  ~ In NEWLINE l -> existsb nonspace l = true ->
  strip (first_line (strip (l ++ NEWLINE :: rest))) = strip l
  /\ strip (first_line (strip l)) = strip l
  /\ strip (l ++ NEWLINE :: rest) <> [].
Proof.
  intros Hnl Hl.
  destruct (strip_decompose l) as [pre [post [El [Hpre [Hpost Hcore]]]]].
  pose proof (strip_nonempty l Hl) as Hne.
  set (core := strip l) in *.
  assert (Hnl_core : ~ In NEWLINE core).
  { intros H. apply Hnl. rewrite El. apply in_or_app. right.
    apply in_or_app. now left. }
  assert (Hnl_post : ~ In NEWLINE (core ++ post)).
  { intros H. apply Hnl. rewrite El. apply in_or_app. now right. }
  assert (Hself : strip core = core).
  { pose proof (@strip_core [] core [] eq_refl eq_refl Hcore) as H.
    cbn [app] in H. now rewrite app_nil_r in H. }
  assert (Htail : strip (core ++ post) = core).
  { exact (@strip_core [] core post eq_refl Hpost Hcore). }
  split; [|split].
  - destruct (forallb isspace rest) eqn:Hrest.
    + assert (Hx : strip (l ++ NEWLINE :: rest) = core).
      { rewrite El at 1. rewrite <- !app_assoc.
        apply strip_core; [exact Hpre | | exact Hcore].
        rewrite forallb_app, Hpost. simpl. exact Hrest. }
      rewrite Hx, first_line_no_newline by exact Hnl_core. exact Hself.
    + destruct (strip_decompose rest) as [r1 [r2 [Er [Hr1 [Hr2 Hc2]]]]].
      assert (Hne2 : strip rest <> []).
      { intros E. rewrite E in Er. cbn [app] in Er.
        rewrite Er, forallb_app, Hr1, Hr2 in Hrest. discriminate. }
      set (core2 := strip rest) in *.
      assert (Hx : strip (l ++ NEWLINE :: rest)
                   = core ++ (post ++ NEWLINE :: r1) ++ core2).
      { rewrite El at 1. rewrite Er at 1.
        replace ((pre ++ core ++ post) ++ NEWLINE :: r1 ++ core2 ++ r2)
          with (pre ++ (core ++ (post ++ NEWLINE :: r1) ++ core2) ++ r2)
          by (rewrite <- !app_assoc; cbn [app]; reflexivity).
        apply strip_core; [exact Hpre | exact Hr2 |].
        now apply trimmed_app. }
      rewrite Hx.
      replace (core ++ (post ++ NEWLINE :: r1) ++ core2)
        with ((core ++ post) ++ NEWLINE :: (r1 ++ core2))
        by (rewrite <- !app_assoc; cbn [app]; reflexivity).
      rewrite first_line_newline by exact Hnl_post. exact Htail.
  - rewrite first_line_no_newline by exact Hnl_core. exact Hself.
  - apply strip_nonempty. rewrite existsb_app, Hl. reflexivity.
Qed.

(** X12. Only the first line of the response is used: when the first line
    holds more than whitespace, the headline and what is printed are the
    same whatever follows the first newline. *)
Theorem response_after_first_line_ignored (cfg : config) (rt : runtime)
    (u m : str) (status : Z) (d1 d2 : list (str * pyval)) (l rest : str) :
  dict_lookup (lit "response") d1 = Some (PyStr l) ->
  dict_lookup (lit "response") d2 = Some (PyStr (l ++ NEWLINE :: rest)) ->
  ~ In NEWLINE l ->
  existsb nonspace l = true ->
  generate_headline_local_llm cfg rt u m (Response status (Some (PyDict d2)))
  = generate_headline_local_llm cfg rt u m (Response status (Some (PyDict d1))).
Proof.
  intros Hd1 Hd2 Hnl Hl.
  destruct (@kept_line l rest Hnl Hl) as [H2 [H1 Hne2]].
  pose proof (@strip_nonempty l Hl) as Hne1.
  assert (Hp : primary_path cfg rt u m (Response status (Some (PyDict d2)))
               = primary_path cfg rt u m (Response status (Some (PyDict d1)))).
  { unfold primary_path. cbn [post bind fst snd].
    destruct (raise_for_status status); cbn [bind]; [|reflexivity].
    cbn [resp_json bind py_get]. rewrite Hd1, Hd2. cbn [bind py_strip].
    destruct (strip (l ++ NEWLINE :: rest)) as [|c2 t2] eqn:E2; [congruence|].
    destruct (strip l) as [|c1 t1] eqn:E1; [congruence|].
    cbv zeta. now rewrite H2, H1. }
  unfold generate_headline_local_llm. now rewrite Hp.
Qed.

(** ** Instances, and the case of the author's name *)

Lemma headlines_title_cased_single_spaced_witness :
  unicode_laws ascii_runtime
  /\ snd (generate_headline_local_llm default_config ascii_runtime
            (lit "alice") (lit "hi") (PostRaises Timeout))
     = Ok (lit "BREAKING: Alice Stuns The Internet" ++ DASH ++ lit "Hi")
  /\ (smart_title ascii_runtime
        (lit "BREAKING: Alice Stuns The Internet" ++ DASH ++ lit "Hi")
      = lit "BREAKING: Alice Stuns The Internet" ++ DASH ++ lit "Hi"
      /\ single_spaced (lit "BREAKING: Alice Stuns The Internet" ++ DASH ++ lit "Hi")
      /\ ~ In NEWLINE (lit "BREAKING: Alice Stuns The Internet" ++ DASH ++ lit "Hi"))
  /\ exists w,
       run_events default_config ascii_runtime
         [{| ev_message := {| author := Some (lit "alice"); content := Some (lit "hi") |};
             ev_draw := 0; ev_backend := PostRaises Timeout |}] initial_world = Ok w
       /\ Forall (fun x => smart_title ascii_runtime x = x /\ single_spaced x
                           /\ ~ In NEWLINE x)
                 (headlines (st w)).
Proof.
  assert (Hgen : snd (generate_headline_local_llm default_config ascii_runtime
                        (lit "alice") (lit "hi") (PostRaises Timeout))
                 = Ok (lit "BREAKING: Alice Stuns The Internet" ++ DASH ++ lit "Hi"))
    by (vm_compute; reflexivity).
  split; [exact ascii_laws|]. split; [exact Hgen|].
  exact (@headlines_title_cased_single_spaced default_config ascii_runtime
           (lit "alice") (lit "hi") (PostRaises Timeout) _
           [{| ev_message := {| author := Some (lit "alice"); content := Some (lit "hi") |};
               ev_draw := 0; ev_backend := PostRaises Timeout |}]
           ascii_laws Hgen).
Defined.

Lemma clean_message_idempotent_witness :
  length (cleaned_form (lit "hi  http://x.co now")) <= 300
  /\ clean_message (clean_message (lit "hi  http://x.co now"))
     = clean_message (lit "hi  http://x.co now").
Proof.
  assert (H : length (cleaned_form (lit "hi  http://x.co now")) <= 300)
    by (apply Nat.leb_le; vm_compute; reflexivity).
  split; [exact H|].
  exact (@clean_message_idempotent (lit "hi  http://x.co now") H).
Defined.

Lemma quote_only_response_gives_empty_headline_witness :
  str_lower ascii_runtime [] = []
  /\ str_lower ascii_runtime (lit "alice") <> []
  /\ (200 < 400 \/ 600 <= 200)%Z
  /\ dict_lookup (lit "response") [(lit "response", PyStr [DQUOTE; DQUOTE])]
     = Some (PyStr [DQUOTE; DQUOTE])
  /\ [DQUOTE; DQUOTE] <> []
  /\ forallb (N.eqb DQUOTE) [DQUOTE; DQUOTE] = true
  /\ generate_headline_local_llm default_config ascii_runtime (lit "alice") (lit "hi")
       (Response 200 (Some (PyDict [(lit "response", PyStr [DQUOTE; DQUOTE])])))
     = ([], Ok []).
Proof.
  assert (H2 : str_lower ascii_runtime (lit "alice") <> []) by (vm_compute; discriminate).
  assert (H3 : (200 < 400 \/ 600 <= 200)%Z) by (left; reflexivity).
  assert (H5 : [DQUOTE; DQUOTE] <> []) by discriminate.
  repeat (split; [first [reflexivity | assumption]|]).
  exact (@quote_only_response_gives_empty_headline default_config ascii_runtime
           (lit "alice") (lit "hi") 200
           [(lit "response", PyStr [DQUOTE; DQUOTE])] [DQUOTE; DQUOTE]
           eq_refl H2 H3 eq_refl H5 eq_refl).
Defined.

Lemma snapshot_items_are_a_history_witness :
  exists s,
    run [Append (lit "x"); ReadVersion 0; Bump; Append (lit "y"); ReadItems 0; Bump]
      initial_system = Some s
    /\ Forall (fun r =>
         appends_seen r
         <= length (appended [Append (lit "x"); ReadVersion 0; Bump; Append (lit "y");
                              ReadItems 0; Bump])
         /\ items (body r)
            = history_after (appends_seen r)
                (appended [Append (lit "x"); ReadVersion 0; Bump; Append (lit "y");
                           ReadItems 0; Bump]))
         (responses s)
    /\ headlines (shared s)
       = firstn MAX_HEADLINES
           (rev (appended [Append (lit "x"); ReadVersion 0; Bump; Append (lit "y");
                           ReadItems 0; Bump])).
Proof.
  eexists. split; [reflexivity|].
  apply (@snapshot_items_are_a_history
           [Append (lit "x"); ReadVersion 0; Bump; Append (lit "y"); ReadItems 0; Bump]).
  reflexivity.
Defined.

Lemma response_after_first_line_ignored_witness :
  dict_lookup (lit "response") [(lit "response", PyStr (lit "alice wins big"))]
  = Some (PyStr (lit "alice wins big"))
  /\ dict_lookup (lit "response")
       [(lit "response", PyStr (lit "alice wins big" ++ NEWLINE :: lit "note: fictional"))]
     = Some (PyStr (lit "alice wins big" ++ NEWLINE :: lit "note: fictional"))
  /\ ~ In NEWLINE (lit "alice wins big")
  /\ existsb nonspace (lit "alice wins big") = true
  /\ generate_headline_local_llm default_config ascii_runtime (lit "alice") (lit "hi")
       (Response 200 (Some (PyDict
          [(lit "response",
            PyStr (lit "alice wins big" ++ NEWLINE :: lit "note: fictional"))])))
     = generate_headline_local_llm default_config ascii_runtime (lit "alice") (lit "hi")
         (Response 200 (Some (PyDict [(lit "response", PyStr (lit "alice wins big"))]))).
Proof.
  assert (Hnl : ~ In NEWLINE (lit "alice wins big")).
  { intros H. vm_compute in H. repeat (destruct H as [H | H]; [discriminate|]).
    exact H. }
  split; [reflexivity|]. split; [reflexivity|]. split; [exact Hnl|].
  split; [reflexivity|].
  exact (@response_after_first_line_ignored default_config ascii_runtime
           (lit "alice") (lit "hi") 200
           [(lit "response", PyStr (lit "alice wins big"))]
           [(lit "response",
             PyStr (lit "alice wins big" ++ NEWLINE :: lit "note: fictional"))]
           (lit "alice wins big") (lit "note: fictional")
           eq_refl eq_refl Hnl eq_refl).
Defined.

(** X13. No word of a returned headline is changed by title casing; so an
    author name that title casing changes, such as a name in lower case,
    never stands as a word of a headline, on the primary path (in spite of
    the substitution that restores its case) or on the fallback path. *)
Theorem author_case_not_kept (cfg : config) (rt : runtime) (u m : str)
    (b : backend) (h : str) :
  unicode_laws rt ->
  snd (generate_headline_local_llm cfg rt u m b) = Ok h ->
  Forall (fun w => fix_word rt w = w) (split h)
  /\ (fix_word rt u <> u -> ~ In u (split h)).
Proof.
  intros laws Hh.
  destruct (@generate_title cfg rt u m b h Hh) as [x ->].
  assert (Hall : Forall (fun w => fix_word rt w = w) (split (smart_title rt x))).
  { rewrite (split_smart_title laws). apply Forall_forall. intros w Hw.
    apply in_map_iff in Hw. destruct Hw as [t [<- _]]. apply (fix_word_idem laws). }
  split; [exact Hall|].
  intros Hu Hin. apply Hu. exact (proj1 (Forall_forall _ _) Hall u Hin).
Qed.

Lemma author_case_not_kept_witness :
  unicode_laws ascii_runtime
  /\ snd (generate_headline_local_llm default_config ascii_runtime (lit "alice") (lit "hi")
            (Response 200 (Some (PyDict [(lit "response", PyStr (lit "ALICE wins big"))]))))
     = Ok (lit "Alice Wins Big")
  /\ Forall (fun w => fix_word ascii_runtime w = w) (split (lit "Alice Wins Big"))
  /\ ~ In (lit "alice") (split (lit "Alice Wins Big")).
Proof.
  assert (Hgen : snd (generate_headline_local_llm default_config ascii_runtime
                        (lit "alice") (lit "hi")
                        (Response 200 (Some (PyDict
                           [(lit "response", PyStr (lit "ALICE wins big"))]))))
                 = Ok (lit "Alice Wins Big")) by (vm_compute; reflexivity).
  split; [exact ascii_laws|]. split; [exact Hgen|].
  destruct (@author_case_not_kept default_config ascii_runtime (lit "alice") (lit "hi")
              _ _ ascii_laws Hgen) as [Hall Hnot].
  split; [exact Hall|]. apply Hnot. vm_compute. discriminate.
Defined.
